(** * TreeWriter: projection of the candidate graph onto output records

    A shallow embedding of [modules/TreeWriter.cc] (Delphes, jet-substructure
    fork).  [Double_t] values are IEEE-754 binary64 numbers ([PrimFloat]);
    integer fields are [Z]; a [TObjArray] of candidates is a [list]; a
    [TRef]/[TRefArray] holds the referenced candidates themselves.

    The declared widths of the record fields live in
    [classes/DelphesClasses.h], which is not part of the sources at hand: every
    store keeps the binary64 value the right-hand side evaluates to. *)

From Stdlib Require Import Floats String ZArith NArith Bool Lia List.
From Stdlib Require Import Permutation Sorted.
Import ListNotations.

Set Warnings "-inexact-float,-register-all".

Open Scope float_scope.

(** ** Four-vectors *)

Record TLorentzVector : Type := mkTLorentzVector
  { fX : float; fY : float; fZ : float; fE : float }.

(** Member functions of ROOT's [TLorentzVector] that only need field
    arithmetic and a square root.  The angle functions [Eta], [Phi] and
    [Rapidity] need [log] and [atan2]; they are parameters of the model
    below. *)
Module Vec.

Definition X (v : TLorentzVector) : float := fX v.
Definition Y (v : TLorentzVector) : float := fY v.
Definition Z (v : TLorentzVector) : float := fZ v.
Definition T (v : TLorentzVector) : float := fE v.

Definition Px (v : TLorentzVector) : float := fX v.
Definition Py (v : TLorentzVector) : float := fY v.
Definition Pz (v : TLorentzVector) : float := fZ v.
Definition E (v : TLorentzVector) : float := fE v.

(** [TVector3::Perp]: the transverse magnitude. *)
Definition Pt (v : TLorentzVector) : float :=
  PrimFloat.sqrt (fX v * fX v + fY v * fY v).

(** [TVector3::Mag]. *)
Definition P (v : TLorentzVector) : float :=
  PrimFloat.sqrt (fX v * fX v + fY v * fY v + fZ v * fZ v).

(** [TVector3::CosTheta]: [ptot == 0.0 ? 1.0 : fZ/ptot]. *)
Definition CosTheta (v : TLorentzVector) : float :=
  let ptot := P v in
  if ptot =? 0.0 then 1.0 else fZ v / ptot.

(** [TLorentzVector::M]: the invariant mass, negative for space-like
    vectors. *)
Definition M (v : TLorentzVector) : float :=
  let mm := fE v * fE v - (fX v * fX v + fY v * fY v + fZ v * fZ v) in
  if mm <? 0.0 then - PrimFloat.sqrt (- mm) else PrimFloat.sqrt mm.

(** Unary minus, [TLorentzVector::operator-() const]. *)
Definition neg (v : TLorentzVector) : TLorentzVector :=
  mkTLorentzVector (- fX v) (- fY v) (- fZ v) (- fE v).

End Vec.

(** [TMath::Abs] on doubles. *)
Definition TMath_Abs (x : float) : float := PrimFloat.abs x.

(** ** Vertex-finding payloads carried by jet candidates *)

Record SecondaryVertexTrack : Type := mkSecondaryVertexTrack
  { svt_weight : float; svt_d0 : float; svt_z0 : float;
    svt_d0err : float; svt_z0err : float; svt_momentum : float;
    svt_dphi : float; svt_deta : float }.

Record TSecondaryVertexTrack : Type := mkTSecondaryVertexTrack
  { tsvt_weight : float; tsvt_d0 : float; tsvt_z0 : float;
    tsvt_d0err : float; tsvt_z0err : float; tsvt_momentum : float;
    tsvt_dphi : float; tsvt_deta : float }.

Record SecondaryVertex : Type := mkSecondaryVertex
  { sv_X : float; sv_Y : float; sv_Z : float;
    sv_Lxy : float; sv_Lsig : float; sv_decayLengthVariance : float;
    sv_nTracks : Z; sv_eFrac : float; sv_mass : float; sv_config : Z;
    sv_tracks_along_jet : list SecondaryVertexTrack }.

Record TSecondaryVertex : Type := mkTSecondaryVertex
  { tsv_x : float; tsv_y : float; tsv_z : float;
    tsv_Lxy : float; tsv_Lsig : float; tsv_decayLengthVariance : float;
    tsv_nTracks : Z; tsv_eFrac : float; tsv_mass : float; tsv_config : Z;
    tsv_tracks : list TSecondaryVertexTrack }.

(** Modelled from the spec: the summaries [hlSvx], [mlSvx], [hlTrk] and the
    truth vertices are declared in [classes/DelphesClasses.h], and the [copy]
    overloads applied to the first three are defined outside
    [TreeWriter.cc].  The spec has each nested structure projected with the
    same verbatim-copy discipline, no derived fields, so a summary is the
    sequence of its scalar fields and its copy keeps every one of them. *)
Definition Summary : Type := list float.

Definition copy_summary (s : Summary) : Summary := s.

(** ** Candidates *)

Record GenInfo : Type := mkGenInfo
  { gen_PID : Z; gen_Status : Z; gen_IsPU : Z;
    gen_M1 : Z; gen_M2 : Z; gen_D1 : Z; gen_D2 : Z;
    gen_Charge : Z; gen_Mass : float }.

Record TrackInfo : Type := mkTrackInfo
  { trk_Dxy : float; trk_SDxy : float;
    trk_Xd : float; trk_Yd : float; trk_Zd : float;
    trk_trkPar : list float; trk_trkCov : list float }.

Record CaloInfo : Type := mkCaloInfo
  { calo_Eem : float; calo_Ehad : float;
    calo_Edges : list float; calo_NTimeHits : Z }.

Record IsolationInfo : Type := mkIsolationInfo
  { iso_IsolationVar : float; iso_IsolationVarRhoCorr : float;
    iso_SumPtCharged : float; iso_SumPtNeutral : float;
    iso_SumPtChargedPU : float; iso_SumPt : float }.

Record JetInfo : Type := mkJetInfo
  { jet_Area : TLorentzVector; jet_DeltaEta : float; jet_DeltaPhi : float;
    jet_Flavor : Z; jet_FlavorAlgo : Z; jet_FlavorPhys : Z;
    jet_BTag : Z; jet_BTagAlgo : Z; jet_BTagPhys : Z; jet_TauTag : Z;
    jet_primaryVertexTracks : list SecondaryVertexTrack;
    jet_secondaryVertices : list SecondaryVertex;
    jet_hlSecVxTracks : list SecondaryVertexTrack;
    jet_hlSvx : Summary; jet_mlSvx : Summary; jet_hlTrk : Summary;
    jet_truthVertices : list Summary;
    jet_NCharged : Z; jet_NNeutrals : Z;
    jet_Beta : float; jet_BetaStar : float;
    jet_MeanSqDeltaR : float; jet_PTD : float;
    jet_NSubJetsTrimmed : Z; jet_NSubJetsPruned : Z;
    jet_NSubJetsSoftDropped : Z;
    jet_FracPt : list float; jet_Tau : list float;
    jet_TrimmedP4 : list TLorentzVector;
    jet_PrunedP4 : list TLorentzVector;
    jet_SoftDroppedP4 : list TLorentzVector }.

(** A node of the candidate graph.  [fArray] is the children sequence
    ([GetCandidates()]); [fSubjets] and [fTracks] are the two labelled edge
    sets of jets. *)
Inductive Candidate : Type := mkCandidate
  { fUniqueID : N;
    Momentum : TLorentzVector;
    Position : TLorentzVector;
    gen : GenInfo;
    trk : TrackInfo;
    calo : CaloInfo;
    iso : IsolationInfo;
    jet : JetInfo;
    fArray : list Candidate;
    fSubjets : list Candidate;
    fTracks : list Candidate }.

Definition TObjArray : Type := list Candidate.
Definition TRefArray : Type := list Candidate.

Definition GetUniqueID (c : Candidate) : N := fUniqueID c.
Definition GetCandidates (c : Candidate) : TObjArray := fArray c.
Definition GetSubjets (c : Candidate) : TObjArray := fSubjets c.
Definition GetTracks (c : Candidate) : TObjArray := fTracks c.

Definition PID (c : Candidate) : Z := gen_PID (gen c).
Definition Status (c : Candidate) : Z := gen_Status (gen c).
Definition IsPU (c : Candidate) : Z := gen_IsPU (gen c).
Definition M1 (c : Candidate) : Z := gen_M1 (gen c).
Definition M2 (c : Candidate) : Z := gen_M2 (gen c).
Definition D1 (c : Candidate) : Z := gen_D1 (gen c).
Definition D2 (c : Candidate) : Z := gen_D2 (gen c).
Definition Charge (c : Candidate) : Z := gen_Charge (gen c).
Definition Mass (c : Candidate) : float := gen_Mass (gen c).

Definition Dxy (c : Candidate) : float := trk_Dxy (trk c).
Definition SDxy (c : Candidate) : float := trk_SDxy (trk c).
Definition Xd (c : Candidate) : float := trk_Xd (trk c).
Definition Yd (c : Candidate) : float := trk_Yd (trk c).
Definition Zd (c : Candidate) : float := trk_Zd (trk c).
Definition trkPar (c : Candidate) : list float := trk_trkPar (trk c).
Definition trkCov (c : Candidate) : list float := trk_trkCov (trk c).

Definition Eem (c : Candidate) : float := calo_Eem (calo c).
Definition Ehad (c : Candidate) : float := calo_Ehad (calo c).
Definition Edges (c : Candidate) : list float := calo_Edges (calo c).
Definition NTimeHits (c : Candidate) : Z := calo_NTimeHits (calo c).

(** ** Arrays *)

(** [TObjArray::At(i)]: the slot's content, the null pointer ([None]) past the
    last entry. *)
Definition At {A : Type} (array : list A) (i : nat) : option A :=
  nth_error array i.

Definition GetEntriesFast {A : Type} (array : list A) : nat := length array.

(** Reading a C array slot ([a[i]]) of doubles. *)
Definition idx (a : list float) (i : nat) : float := nth i a 0.0.

Definition idxV (a : list TLorentzVector) (i : nat) : TLorentzVector :=
  nth i a (mkTLorentzVector 0.0 0.0 0.0 0.0).

(** [for(i = 0; i < n; i++) dst[i] = src[i];] into a fresh array. *)
Definition copy_array (n : nat) (src : list float) : list float :=
  map (idx src) (seq 0 n).

Definition copy_arrayV (n : nat) (src : list TLorentzVector)
  : list TLorentzVector :=
  map (idxV src) (seq 0 n).

(** [TRefArray::Add]: appends the reference; ROOT leaves the array as it is
    when handed a null pointer. *)
Definition TRefArray_Add (array : TRefArray) (obj : option Candidate)
  : TRefArray :=
  match obj with
  | Some c => array ++ [c]
  | None => array
  end.

(** ** FillParticles *)

(** The inner [while] over [it2] (the "tower" case): every entry contributes
    its own first child. *)
Definition FillParticles_tower (it2 : TObjArray) (array : TRefArray)
  : TRefArray :=
  fold_left
    (fun (arr : TRefArray) (candidate : Candidate) =>
       TRefArray_Add arr (At (GetCandidates candidate) 0))
    it2 array.

(** One turn of the outer [while] over [it1]. *)
Definition FillParticles_step (array : TRefArray) (candidate : Candidate)
  : TRefArray :=
  let it2 := GetCandidates candidate in
  match GetCandidates candidate with
  | [] =>
      (* particle *)
      TRefArray_Add array (Some candidate)
  | first :: _ =>
      (* track *)
      match GetEntriesFast (GetCandidates first) with
      | O => TRefArray_Add array (Some first)
      | S _ =>
          (* tower *)
          FillParticles_tower it2 array
      end
  end.

Definition FillParticles (candidate : Candidate) (array : TRefArray)
  : TRefArray :=
  let it1 := GetCandidates candidate in
  let array := @nil Candidate in
  fold_left FillParticles_step it1 array.

(** The flattening rule in the words of the specification: what one direct
    child contributes, and the concatenation over the children. *)
Definition first_child (c : Candidate) : list Candidate :=
  match GetCandidates c with
  | [] => []
  | p :: _ => [p]
  end.

Definition flatten_child (child : Candidate) : list Candidate :=
  match GetCandidates child with
  | [] => [child]
  | first :: _ =>
      match GetCandidates first with
      | [] => [first]
      | _ :: _ => flat_map first_child (GetCandidates child)
      end
  end.

Definition flatten_spec (candidate : Candidate) : list Candidate :=
  flat_map flatten_child (GetCandidates candidate).

Definition has_children (c : Candidate) : bool :=
  negb (Nat.eqb (GetEntriesFast (GetCandidates c)) 0).

(** The tower pattern: every direct child is built from children which all
    have a first child of their own. *)
Definition tower_shape (candidate : Candidate) : bool :=
  forallb
    (fun child => has_children child
                  && forallb has_children (GetCandidates child))
    (GetCandidates candidate).

Definition grandchildren_count (candidate : Candidate) : nat :=
  list_sum (map (fun child => length (GetCandidates child))
              (GetCandidates candidate)).

Definition IsolationVar (c : Candidate) : float := iso_IsolationVar (iso c).
Definition IsolationVarRhoCorr (c : Candidate) : float :=
  iso_IsolationVarRhoCorr (iso c).
Definition SumPtCharged (c : Candidate) : float := iso_SumPtCharged (iso c).
Definition SumPtNeutral (c : Candidate) : float := iso_SumPtNeutral (iso c).
Definition SumPtChargedPU (c : Candidate) : float :=
  iso_SumPtChargedPU (iso c).
Definition SumPt (c : Candidate) : float := iso_SumPt (iso c).

(** ** Output records *)

Record GenParticle : Type := mkGenParticle
  { GenParticle_kIsReferenced : bool; GenParticle_UniqueID : N;
    GenParticle_PID : Z; GenParticle_Status : Z; GenParticle_IsPU : Z;
    GenParticle_M1 : Z; GenParticle_M2 : Z;
    GenParticle_D1 : Z; GenParticle_D2 : Z;
    GenParticle_Charge : Z; GenParticle_Mass : float;
    GenParticle_E : float; GenParticle_Px : float;
    GenParticle_Py : float; GenParticle_Pz : float;
    GenParticle_Eta : float; GenParticle_Phi : float; GenParticle_PT : float;
    GenParticle_Rapidity : float;
    GenParticle_X : float; GenParticle_Y : float; GenParticle_Z : float;
    GenParticle_T : float }.

Record Vertex : Type := mkVertex
  { Vertex_X : float; Vertex_Y : float; Vertex_Z : float; Vertex_T : float }.

Record Track : Type := mkTrack
  { Track_kIsReferenced : bool; Track_UniqueID : N;
    Track_PID : Z; Track_Charge : Z;
    Track_EtaOuter : float; Track_PhiOuter : float;
    Track_XOuter : float; Track_YOuter : float; Track_ZOuter : float;
    Track_TOuter : float;
    Track_Dxy : float; Track_SDxy : float;
    Track_Xd : float; Track_Yd : float; Track_Zd : float;
    Track_trkPar : list float; Track_trkCov : list float;
    Track_Eta : float; Track_Phi : float; Track_PT : float;
    Track_X : float; Track_Y : float; Track_Z : float; Track_T : float;
    Track_Particle : option Candidate }.

Record Tower : Type := mkTower
  { Tower_kIsReferenced : bool; Tower_UniqueID : N;
    Tower_Eta : float; Tower_Phi : float; Tower_ET : float; Tower_E : float;
    Tower_Eem : float; Tower_Ehad : float; Tower_Edges : list float;
    Tower_T : float; Tower_NTimeHits : Z;
    Tower_Particles : TRefArray }.

Record Photon : Type := mkPhoton
  { Photon_Eta : float; Photon_Phi : float; Photon_PT : float;
    Photon_E : float; Photon_T : float;
    Photon_Isolation : IsolationInfo;
    Photon_EhadOverEem : float;
    Photon_Particles : TRefArray }.

Record Electron : Type := mkElectron
  { Electron_Eta : float; Electron_Phi : float; Electron_PT : float;
    Electron_T : float;
    Electron_Isolation : IsolationInfo;
    Electron_Charge : Z;
    Electron_EhadOverEem : float;
    Electron_Particle : option Candidate }.

Record Muon : Type := mkMuon
  { Muon_kIsReferenced : bool; Muon_UniqueID : N;
    Muon_Eta : float; Muon_Phi : float; Muon_PT : float; Muon_T : float;
    Muon_Isolation : IsolationInfo;
    Muon_Charge : Z;
    Muon_Particle : option Candidate }.

Record Jet : Type := mkJet
  { Jet_Eta : float; Jet_Phi : float; Jet_PT : float; Jet_T : float;
    Jet_Mass : float; Jet_Area : TLorentzVector;
    Jet_DeltaEta : float; Jet_DeltaPhi : float;
    Jet_Flavor : Z; Jet_FlavorAlgo : Z; Jet_FlavorPhys : Z;
    Jet_BTag : Z; Jet_BTagAlgo : Z; Jet_BTagPhys : Z;
    Jet_PrimaryVertexTracks : list TSecondaryVertexTrack;
    Jet_SecondaryVertices : list TSecondaryVertex;
    Jet_HLSecondaryVertexTracks : list TSecondaryVertexTrack;
    Jet_HLSecondaryVertex : Summary; Jet_MLSecondaryVertex : Summary;
    Jet_HLTracking : Summary;
    Jet_TruthVertices : list Summary;
    Jet_TauTag : Z; Jet_Charge : Z;
    Jet_Constituents : TRefArray;
    Jet_EhadOverEem : float;
    Jet_Subjets : TRefArray; Jet_Tracks : TRefArray;
    Jet_NCharged : Z; Jet_NNeutrals : Z;
    Jet_Beta : float; Jet_BetaStar : float;
    Jet_MeanSqDeltaR : float; Jet_PTD : float;
    Jet_NSubJetsTrimmed : Z; Jet_NSubJetsPruned : Z;
    Jet_NSubJetsSoftDropped : Z;
    Jet_FracPt : list float; Jet_Tau : list float;
    Jet_TrimmedP4 : list TLorentzVector;
    Jet_PrunedP4 : list TLorentzVector;
    Jet_SoftDroppedP4 : list TLorentzVector;
    Jet_Particles : TRefArray }.

Record MissingET : Type := mkMissingET
  { MissingET_Eta : float; MissingET_Phi : float; MissingET_MET : float }.

Record ScalarHT : Type := mkScalarHT { ScalarHT_HT : float }.

Record Rho : Type := mkRho { Rho_Rho : float; Rho_Edges : list float }.

Record Weight : Type := mkWeight { Weight_Weight : float }.

Record HectorHit : Type := mkHectorHit
  { HectorHit_E : float; HectorHit_Tx : float; HectorHit_Ty : float;
    HectorHit_T : float;
    HectorHit_X : float; HectorHit_Y : float; HectorHit_S : float;
    HectorHit_Particle : option Candidate }.

(** What a branch stores: objects of the branch's class. *)
Inductive TObject : Type :=
| ObjGenParticle (e : GenParticle)
| ObjVertex (e : Vertex)
| ObjTrack (e : Track)
| ObjTower (e : Tower)
| ObjPhoton (e : Photon)
| ObjElectron (e : Electron)
| ObjMuon (e : Muon)
| ObjJet (e : Jet)
| ObjMissingET (e : MissingET)
| ObjScalarHT (e : ScalarHT)
| ObjRho (e : Rho)
| ObjWeight (e : Weight)
| ObjHectorHit (e : HectorHit).

(** The content of an [ExRootTreeBranch]: the entries created so far. *)
Definition ExRootTreeBranch : Type := list TObject.

(** [branch->NewEntry()] followed by the assignments to the new entry. *)
Definition NewEntry (branch : ExRootTreeBranch) (entry : TObject)
  : ExRootTreeBranch :=
  branch ++ [entry].

(** How a projector call ends: normally, in the failure of an [assert], or in
    the use of a null pointer. *)
Inductive Outcome (A : Type) : Type :=
| Done (a : A)
| AssertionFailed
| NullDereference.

Arguments Done {A} a.
Arguments AssertionFailed {A}.
Arguments NullDereference {A}.

(** A loop over a collection ([while((candidate = iterator.Next()))], or a
    [for] over a map) whose body may abort. *)
Fixpoint iterate {S X : Type} (body : S -> X -> Outcome S)
  (array : list X) (s : S) : Outcome S :=
  match array with
  | [] => Done s
  | candidate :: rest =>
      match body s candidate with
      | Done s' => iterate body rest s'
      | AssertionFailed => AssertionFailed
      | NullDereference => NullDereference
      end
  end.

Definition c_light : float := 2.99792458E8.

(** ** The track consistency check *)

(** The positions [TrackParam::D0] and [TrackParam::Z0] of the two impact
    parameters in [trkPar]; the enumeration is declared outside
    [TreeWriter.cc]. *)
Record TrackParam : Type := mkTrackParam
  { TrackParam_D0 : nat; TrackParam_Z0 : nat }.

Definition compare (quant1 quant2 : float) : bool :=
  let diff := quant1 - quant2 in
  if PrimFloat.abs diff <? 1e-15 then true
  else
    let rel_diff := diff / quant1 in
    if 0.000000001 <? PrimFloat.abs rel_diff then false
    else true.

Definition check_d0_z0 (tp : TrackParam) (track : Track) : bool :=
  if negb (compare (Track_Zd track) (idx (Track_trkPar track) (TrackParam_Z0 tp)))
  then false
  else if negb (compare (Track_Dxy track) (idx (Track_trkPar track) (TrackParam_D0 tp)))
  then false
  else true.

(** The relation the check stands for: equal up to an absolute difference
    below [1e-15], or a difference relative to the first quantity that does
    not exceed [1e-9].  Both tests are IEEE comparisons, so a difference that
    is not a number is not found to exceed the tolerance. *)
Definition within_tolerance (quant1 quant2 : float) : bool :=
  (PrimFloat.abs (quant1 - quant2) <? 1e-15)
  || negb (1e-9 <? PrimFloat.abs ((quant1 - quant2) / quant1)).

Definition consistent_track (tp : TrackParam) (candidate : Candidate) : bool :=
  within_tolerance (Zd candidate) (idx (trkPar candidate) (TrackParam_Z0 tp))
  && within_tolerance (Dxy candidate) (idx (trkPar candidate) (TrackParam_D0 tp)).

(** ** The vertex payload copies *)

Definition copy (vxtrk : SecondaryVertexTrack) : TSecondaryVertexTrack :=
  {| tsvt_weight := svt_weight vxtrk;
     tsvt_d0 := svt_d0 vxtrk;
     tsvt_z0 := svt_z0 vxtrk;
     tsvt_d0err := svt_d0err vxtrk;
     tsvt_z0err := svt_z0err vxtrk;
     tsvt_momentum := svt_momentum vxtrk;
     tsvt_dphi := svt_dphi vxtrk;
     tsvt_deta := svt_deta vxtrk |}.

(** [for (const auto& vxtrk: tracks) { copy(vxtrk, track); out.push_back(track); }]
    after [out.clear()] (or on a fresh vector). *)
Definition copy_tracks (tracks : list SecondaryVertexTrack)
  : list TSecondaryVertexTrack :=
  fold_left (fun out vxtrk => out ++ [copy vxtrk]) tracks [].

Definition copy_vertex (vx : SecondaryVertex) : TSecondaryVertex :=
  {| tsv_x := sv_X vx; tsv_y := sv_Y vx; tsv_z := sv_Z vx;
     tsv_Lxy := sv_Lxy vx;
     tsv_Lsig := sv_Lsig vx;
     tsv_decayLengthVariance := sv_decayLengthVariance vx;
     tsv_nTracks := sv_nTracks vx;
     tsv_eFrac := sv_eFrac vx;
     tsv_mass := sv_mass vx;
     tsv_config := sv_config vx;
     tsv_tracks := copy_tracks (sv_tracks_along_jet vx) |}.

Definition copy_vertices (vertices : list SecondaryVertex)
  : list TSecondaryVertex :=
  fold_left (fun out vx => out ++ [copy_vertex vx]) vertices [].

Definition copy_truth (vertices : list Summary) : list Summary :=
  fold_left (fun out vx => out ++ [vx]) vertices [].

Definition copy_isolation (candidate : Candidate) : IsolationInfo :=
  {| iso_IsolationVar := IsolationVar candidate;
     iso_IsolationVarRhoCorr := IsolationVarRhoCorr candidate;
     iso_SumPtCharged := SumPtCharged candidate;
     iso_SumPtNeutral := SumPtNeutral candidate;
     iso_SumPtChargedPU := SumPtChargedPU candidate;
     iso_SumPt := SumPt candidate |}.

(** Copying a labelled edge set into a cleared [TRefArray]. *)
Definition copy_refs (edges : TObjArray) : TRefArray :=
  fold_left (fun arr constituent => TRefArray_Add arr (Some constituent))
    edges [].

(** ** The projectors *)

Section Projectors.

(** ROOT's [TLorentzVector::Eta], [Phi] and [Rapidity]. *)
Variables Eta Phi Rapidity : TLorentzVector -> float.

(** [TObjArray::Sort()]: the content of the array once it has been sorted
    in place with the candidates' comparator, which is set outside this
    module. *)
Variable Sort : TObjArray -> TObjArray.

Variable tp : TrackParam.

Definition ProcessParticles_entry (candidate : Candidate) : GenParticle :=
  let momentum := Momentum candidate in
  let position := Position candidate in
  let pt := Vec.Pt momentum in
  let cosTheta := TMath_Abs (Vec.CosTheta momentum) in
  let signPz := if 0.0 <=? Vec.Pz momentum then 1.0 else -1.0 in
  let eta := if cosTheta =? 1.0 then signPz * 999.9 else Eta momentum in
  let rapidity :=
    if cosTheta =? 1.0 then signPz * 999.9 else Rapidity momentum in
  {| GenParticle_kIsReferenced := true;
     GenParticle_UniqueID := GetUniqueID candidate;
     GenParticle_PID := PID candidate;
     GenParticle_Status := Status candidate;
     GenParticle_IsPU := IsPU candidate;
     GenParticle_M1 := M1 candidate;
     GenParticle_M2 := M2 candidate;
     GenParticle_D1 := D1 candidate;
     GenParticle_D2 := D2 candidate;
     GenParticle_Charge := Charge candidate;
     GenParticle_Mass := Mass candidate;
     GenParticle_E := Vec.E momentum;
     GenParticle_Px := Vec.Px momentum;
     GenParticle_Py := Vec.Py momentum;
     GenParticle_Pz := Vec.Pz momentum;
     GenParticle_Eta := eta;
     GenParticle_Phi := Phi momentum;
     GenParticle_PT := pt;
     GenParticle_Rapidity := rapidity;
     GenParticle_X := Vec.X position;
     GenParticle_Y := Vec.Y position;
     GenParticle_Z := Vec.Z position;
     GenParticle_T := Vec.T position * 1.0E-3 / c_light |}.

Definition ProcessParticles (branch : ExRootTreeBranch) (array : TObjArray)
  : ExRootTreeBranch * TObjArray :=
  (fold_left
     (fun br candidate =>
        NewEntry br (ObjGenParticle (ProcessParticles_entry candidate)))
     array branch,
   array).

Definition ProcessVertices_entry (candidate : Candidate) : Vertex :=
  let position := Position candidate in
  {| Vertex_X := Vec.X position;
     Vertex_Y := Vec.Y position;
     Vertex_Z := Vec.Z position;
     Vertex_T := Vec.T position * 1.0E-3 / c_light |}.

Definition ProcessVertices (branch : ExRootTreeBranch) (array : TObjArray)
  : ExRootTreeBranch * TObjArray :=
  (fold_left
     (fun br candidate =>
        NewEntry br (ObjVertex (ProcessVertices_entry candidate)))
     array branch,
   array).

(** The track entry as it stands when the [assert] is evaluated: the fields
    assigned after it still hold what [NewEntry] left there, which the check
    does not read. *)
Definition ProcessTracks_checked (candidate : Candidate) : Track :=
  let position := Position candidate in
  let cosTheta := TMath_Abs (Vec.CosTheta position) in
  let signz := if 0.0 <=? Vec.Pz position then 1.0 else -1.0 in
  let eta := if cosTheta =? 1.0 then signz * 999.9 else Eta position in
  {| Track_kIsReferenced := true;
     Track_UniqueID := GetUniqueID candidate;
     Track_PID := PID candidate;
     Track_Charge := Charge candidate;
     Track_EtaOuter := eta;
     Track_PhiOuter := Phi position;
     Track_XOuter := Vec.X position;
     Track_YOuter := Vec.Y position;
     Track_ZOuter := Vec.Z position;
     Track_TOuter := Vec.T position * 1.0E-3 / c_light;
     Track_Dxy := Dxy candidate;
     Track_SDxy := SDxy candidate;
     Track_Xd := Xd candidate;
     Track_Yd := Yd candidate;
     Track_Zd := Zd candidate;
     Track_trkPar := copy_array 5 (trkPar candidate);
     Track_trkCov := copy_array 15 (trkCov candidate);
     Track_Eta := 0.0; Track_Phi := 0.0; Track_PT := 0.0;
     Track_X := 0.0; Track_Y := 0.0; Track_Z := 0.0; Track_T := 0.0;
     Track_Particle := None |}.

(** The assignments that follow the [assert]: the angles at production and
    the originating particle. *)
Definition ProcessTracks_finish (entry : Track) (candidate particle : Candidate)
  : Track :=
  let momentum := Momentum candidate in
  let pt := Vec.Pt momentum in
  let cosTheta := TMath_Abs (Vec.CosTheta momentum) in
  let signz := if 0.0 <=? Vec.Pz momentum then 1.0 else -1.0 in
  let eta := if cosTheta =? 1.0 then signz * 999.9 else Eta momentum in
  let initialPosition := Position particle in
  {| Track_kIsReferenced := Track_kIsReferenced entry;
     Track_UniqueID := Track_UniqueID entry;
     Track_PID := Track_PID entry;
     Track_Charge := Track_Charge entry;
     Track_EtaOuter := Track_EtaOuter entry;
     Track_PhiOuter := Track_PhiOuter entry;
     Track_XOuter := Track_XOuter entry;
     Track_YOuter := Track_YOuter entry;
     Track_ZOuter := Track_ZOuter entry;
     Track_TOuter := Track_TOuter entry;
     Track_Dxy := Track_Dxy entry;
     Track_SDxy := Track_SDxy entry;
     Track_Xd := Track_Xd entry;
     Track_Yd := Track_Yd entry;
     Track_Zd := Track_Zd entry;
     Track_trkPar := Track_trkPar entry;
     Track_trkCov := Track_trkCov entry;
     Track_Eta := eta;
     Track_Phi := Phi momentum;
     Track_PT := pt;
     Track_X := Vec.X initialPosition;
     Track_Y := Vec.Y initialPosition;
     Track_Z := Vec.Z initialPosition;
     Track_T := Vec.T initialPosition * 1.0E-3 / c_light;
     Track_Particle := Some particle |}.

Definition ProcessTracks_body (branch : ExRootTreeBranch)
  (candidate : Candidate) : Outcome ExRootTreeBranch :=
  let entry := ProcessTracks_checked candidate in
  if negb (check_d0_z0 tp entry) then AssertionFailed
  else
    match At (GetCandidates candidate) 0 with
    | None => NullDereference
    | Some particle =>
        Done (NewEntry branch
                (ObjTrack (ProcessTracks_finish entry candidate particle)))
    end.

Definition ProcessTracks (branch : ExRootTreeBranch) (array : TObjArray)
  : Outcome (ExRootTreeBranch * TObjArray) :=
  match iterate ProcessTracks_body array branch with
  | Done br => Done (br, array)
  | AssertionFailed => AssertionFailed
  | NullDereference => NullDereference
  end.

Definition ProcessTowers_entry (candidate : Candidate) : Tower :=
  let momentum := Momentum candidate in
  let position := Position candidate in
  let pt := Vec.Pt momentum in
  let cosTheta := TMath_Abs (Vec.CosTheta momentum) in
  let signPz := if 0.0 <=? Vec.Pz momentum then 1.0 else -1.0 in
  let eta := if cosTheta =? 1.0 then signPz * 999.9 else Eta momentum in
  {| Tower_kIsReferenced := true;
     Tower_UniqueID := GetUniqueID candidate;
     Tower_Eta := eta;
     Tower_Phi := Phi momentum;
     Tower_ET := pt;
     Tower_E := Vec.E momentum;
     Tower_Eem := Eem candidate;
     Tower_Ehad := Ehad candidate;
     Tower_Edges := copy_array 4 (Edges candidate);
     Tower_T := Vec.T position * 1.0E-3 / c_light;
     Tower_NTimeHits := NTimeHits candidate;
     Tower_Particles := FillParticles candidate [] |}.

Definition ProcessTowers (branch : ExRootTreeBranch) (array : TObjArray)
  : ExRootTreeBranch * TObjArray :=
  (fold_left
     (fun br candidate =>
        NewEntry br (ObjTower (ProcessTowers_entry candidate)))
     array branch,
   array).

Definition ProcessPhotons_entry (candidate : Candidate) : Photon :=
  let momentum := Momentum candidate in
  let position := Position candidate in
  let pt := Vec.Pt momentum in
  let cosTheta := TMath_Abs (Vec.CosTheta momentum) in
  let signPz := if 0.0 <=? Vec.Pz momentum then 1.0 else -1.0 in
  let eta := if cosTheta =? 1.0 then signPz * 999.9 else Eta momentum in
  {| Photon_Eta := eta;
     Photon_Phi := Phi momentum;
     Photon_PT := pt;
     Photon_E := Vec.E momentum;
     Photon_T := Vec.T position * 1.0E-3 / c_light;
     Photon_Isolation := copy_isolation candidate;
     Photon_EhadOverEem :=
       if 0.0 <? Eem candidate then Ehad candidate / Eem candidate
       else 999.9;
     Photon_Particles := FillParticles candidate [] |}.

Definition ProcessPhotons (branch : ExRootTreeBranch) (array : TObjArray)
  : ExRootTreeBranch * TObjArray :=
  let array := Sort array in
  (fold_left
     (fun br candidate =>
        NewEntry br (ObjPhoton (ProcessPhotons_entry candidate)))
     array branch,
   array).

Definition ProcessElectrons_entry (candidate : Candidate) : Electron :=
  let momentum := Momentum candidate in
  let position := Position candidate in
  let pt := Vec.Pt momentum in
  let cosTheta := TMath_Abs (Vec.CosTheta momentum) in
  let signPz := if 0.0 <=? Vec.Pz momentum then 1.0 else -1.0 in
  let eta := if cosTheta =? 1.0 then signPz * 999.9 else Eta momentum in
  {| Electron_Eta := eta;
     Electron_Phi := Phi momentum;
     Electron_PT := pt;
     Electron_T := Vec.T position * 1.0E-3 / c_light;
     Electron_Isolation := copy_isolation candidate;
     Electron_Charge := Charge candidate;
     Electron_EhadOverEem := 0.0;
     Electron_Particle := At (GetCandidates candidate) 0 |}.

Definition ProcessElectrons (branch : ExRootTreeBranch) (array : TObjArray)
  : ExRootTreeBranch * TObjArray :=
  let array := Sort array in
  (fold_left
     (fun br candidate =>
        NewEntry br (ObjElectron (ProcessElectrons_entry candidate)))
     array branch,
   array).

Definition ProcessMuons_entry (candidate : Candidate) : Muon :=
  let momentum := Momentum candidate in
  let position := Position candidate in
  let pt := Vec.Pt momentum in
  let cosTheta := TMath_Abs (Vec.CosTheta momentum) in
  let signPz := if 0.0 <=? Vec.Pz momentum then 1.0 else -1.0 in
  let eta := if cosTheta =? 1.0 then signPz * 999.9 else Eta momentum in
  {| Muon_kIsReferenced := true;
     Muon_UniqueID := GetUniqueID candidate;
     Muon_Eta := eta;
     Muon_Phi := Phi momentum;
     Muon_PT := pt;
     Muon_T := Vec.T position * 1.0E-3 / c_light;
     Muon_Isolation := copy_isolation candidate;
     Muon_Charge := Charge candidate;
     Muon_Particle := At (GetCandidates candidate) 0 |}.

Definition ProcessMuons (branch : ExRootTreeBranch) (array : TObjArray)
  : ExRootTreeBranch * TObjArray :=
  let array := Sort array in
  (fold_left
     (fun br candidate =>
        NewEntry br (ObjMuon (ProcessMuons_entry candidate)))
     array branch,
   array).

(** The loop over [itConstituents]: the direct constituents are recorded
    and their deposits summed. *)
Definition ProcessJets_constituent (acc : TRefArray * float * float)
  (constituent : Candidate) : TRefArray * float * float :=
  let '(constituents, ecalEnergy, hcalEnergy) := acc in
  (TRefArray_Add constituents (Some constituent),
   ecalEnergy + Eem constituent,
   hcalEnergy + Ehad constituent).

Definition ProcessJets_entry (candidate : Candidate) : Jet :=
  let itConstituents := GetCandidates candidate in
  let momentum := Momentum candidate in
  let position := Position candidate in
  let pt := Vec.Pt momentum in
  let cosTheta := TMath_Abs (Vec.CosTheta momentum) in
  let signPz := if 0.0 <=? Vec.Pz momentum then 1.0 else -1.0 in
  let eta := if cosTheta =? 1.0 then signPz * 999.9 else Eta momentum in
  let '(constituents, ecalEnergy, hcalEnergy) :=
    fold_left ProcessJets_constituent itConstituents ([], 0.0, 0.0) in
  let info := jet candidate in
  {| Jet_Eta := eta;
     Jet_Phi := Phi momentum;
     Jet_PT := pt;
     Jet_T := Vec.T position * 1.0E-3 / c_light;
     Jet_Mass := Vec.M momentum;
     Jet_Area := jet_Area info;
     Jet_DeltaEta := jet_DeltaEta info;
     Jet_DeltaPhi := jet_DeltaPhi info;
     Jet_Flavor := jet_Flavor info;
     Jet_FlavorAlgo := jet_FlavorAlgo info;
     Jet_FlavorPhys := jet_FlavorPhys info;
     Jet_BTag := jet_BTag info;
     Jet_BTagAlgo := jet_BTagAlgo info;
     Jet_BTagPhys := jet_BTagPhys info;
     Jet_PrimaryVertexTracks := copy_tracks (jet_primaryVertexTracks info);
     Jet_SecondaryVertices := copy_vertices (jet_secondaryVertices info);
     Jet_HLSecondaryVertexTracks := copy_tracks (jet_hlSecVxTracks info);
     Jet_HLSecondaryVertex := copy_summary (jet_hlSvx info);
     Jet_MLSecondaryVertex := copy_summary (jet_mlSvx info);
     Jet_HLTracking := copy_summary (jet_hlTrk info);
     Jet_TruthVertices := copy_truth (jet_truthVertices info);
     Jet_TauTag := jet_TauTag info;
     Jet_Charge := Charge candidate;
     Jet_Constituents := constituents;
     Jet_EhadOverEem :=
       if 0.0 <? ecalEnergy then hcalEnergy / ecalEnergy else 999.9;
     Jet_Subjets := copy_refs (GetSubjets candidate);
     Jet_Tracks := copy_refs (GetTracks candidate);
     Jet_NCharged := jet_NCharged info;
     Jet_NNeutrals := jet_NNeutrals info;
     Jet_Beta := jet_Beta info;
     Jet_BetaStar := jet_BetaStar info;
     Jet_MeanSqDeltaR := jet_MeanSqDeltaR info;
     Jet_PTD := jet_PTD info;
     Jet_NSubJetsTrimmed := jet_NSubJetsTrimmed info;
     Jet_NSubJetsPruned := jet_NSubJetsPruned info;
     Jet_NSubJetsSoftDropped := jet_NSubJetsSoftDropped info;
     Jet_FracPt := copy_array 5 (jet_FracPt info);
     Jet_Tau := copy_array 5 (jet_Tau info);
     Jet_TrimmedP4 := copy_arrayV 5 (jet_TrimmedP4 info);
     Jet_PrunedP4 := copy_arrayV 5 (jet_PrunedP4 info);
     Jet_SoftDroppedP4 := copy_arrayV 5 (jet_SoftDroppedP4 info);
     Jet_Particles := FillParticles candidate [] |}.

Definition ProcessJets (branch : ExRootTreeBranch) (array : TObjArray)
  : ExRootTreeBranch * TObjArray :=
  let array := Sort array in
  (fold_left
     (fun br candidate => NewEntry br (ObjJet (ProcessJets_entry candidate)))
     array branch,
   array).

Definition ProcessMissingET_entry (candidate : Candidate) : MissingET :=
  let momentum := Momentum candidate in
  {| MissingET_Eta := Eta (Vec.neg momentum);
     MissingET_Phi := Phi (Vec.neg momentum);
     MissingET_MET := Vec.Pt momentum |}.

Definition ProcessMissingET (branch : ExRootTreeBranch) (array : TObjArray)
  : ExRootTreeBranch * TObjArray :=
  (* get the first entry *)
  match At array 0 with
  | Some candidate =>
      (NewEntry branch (ObjMissingET (ProcessMissingET_entry candidate)),
       array)
  | None => (branch, array)
  end.

Definition ProcessScalarHT_entry (candidate : Candidate) : ScalarHT :=
  let momentum := Momentum candidate in
  {| ScalarHT_HT := Vec.Pt momentum |}.

Definition ProcessScalarHT (branch : ExRootTreeBranch) (array : TObjArray)
  : ExRootTreeBranch * TObjArray :=
  match At array 0 with
  | Some candidate =>
      (NewEntry branch (ObjScalarHT (ProcessScalarHT_entry candidate)),
       array)
  | None => (branch, array)
  end.

Definition ProcessRho_entry (candidate : Candidate) : Rho :=
  let momentum := Momentum candidate in
  {| Rho_Rho := Vec.E momentum;
     Rho_Edges := copy_array 2 (Edges candidate) |}.

Definition ProcessRho (branch : ExRootTreeBranch) (array : TObjArray)
  : ExRootTreeBranch * TObjArray :=
  (fold_left
     (fun br candidate => NewEntry br (ObjRho (ProcessRho_entry candidate)))
     array branch,
   array).

Definition ProcessWeight_entry (candidate : Candidate) : Weight :=
  let momentum := Momentum candidate in
  {| Weight_Weight := Vec.E momentum |}.

Definition ProcessWeight (branch : ExRootTreeBranch) (array : TObjArray)
  : ExRootTreeBranch * TObjArray :=
  match At array 0 with
  | Some candidate =>
      (NewEntry branch (ObjWeight (ProcessWeight_entry candidate)), array)
  | None => (branch, array)
  end.

Definition ProcessHectorHit_entry (candidate : Candidate) : HectorHit :=
  let position := Position candidate in
  let momentum := Momentum candidate in
  {| HectorHit_E := Vec.E momentum;
     HectorHit_Tx := Vec.Px momentum;
     HectorHit_Ty := Vec.Py momentum;
     HectorHit_T := Vec.T position;
     HectorHit_X := Vec.X position;
     HectorHit_Y := Vec.Y position;
     HectorHit_S := Vec.Z position;
     HectorHit_Particle := At (GetCandidates candidate) 0 |}.

Definition ProcessHectorHit (branch : ExRootTreeBranch) (array : TObjArray)
  : ExRootTreeBranch * TObjArray :=
  (fold_left
     (fun br candidate =>
        NewEntry br (ObjHectorHit (ProcessHectorHit_entry candidate)))
     array branch,
   array).

(** ** Dispatch *)

(** [TProcessMethod]: a pointer to one of the member functions above. *)
Inductive TProcessMethod : Type :=
| mProcessParticles | mProcessVertices | mProcessTracks | mProcessTowers
| mProcessPhotons | mProcessElectrons | mProcessMuons | mProcessJets
| mProcessMissingET | mProcessScalarHT | mProcessRho | mProcessWeight
| mProcessHectorHit.

(** [(this->*method)(branch, array)]. *)
Definition invoke (method : TProcessMethod) (branch : ExRootTreeBranch)
  (array : TObjArray) : Outcome (ExRootTreeBranch * TObjArray) :=
  match method with
  | mProcessParticles => Done (ProcessParticles branch array)
  | mProcessVertices => Done (ProcessVertices branch array)
  | mProcessTracks => ProcessTracks branch array
  | mProcessTowers => Done (ProcessTowers branch array)
  | mProcessPhotons => Done (ProcessPhotons branch array)
  | mProcessElectrons => Done (ProcessElectrons branch array)
  | mProcessMuons => Done (ProcessMuons branch array)
  | mProcessJets => Done (ProcessJets branch array)
  | mProcessMissingET => Done (ProcessMissingET branch array)
  | mProcessScalarHT => Done (ProcessScalarHT branch array)
  | mProcessRho => Done (ProcessRho branch array)
  | mProcessWeight => Done (ProcessWeight branch array)
  | mProcessHectorHit => Done (ProcessHectorHit branch array)
  end.

(** A [TClass] is identified by the name of the class it describes. *)
Definition TClass : Type := string.

(** [gROOT->GetClass(name)]: the dictionary lookup, null for a name ROOT
    does not know. *)
Variable GetClass : string -> option TClass.

(** An [ExRootTreeBranch*]: the branch made by the n-th call of
    [NewBranch], with the name and class it was made for. *)
Record BranchHandle : Type := mkBranchHandle
  { branch_id : nat; branch_name : string; branch_class : TClass }.

(** A [TObjArray*] obtained from [ImportArray]: arrays are exported under
    their name, and importing the same name twice yields the same array. *)
Definition ArrayHandle : Type := string.

Definition ImportArray (name : string) : ArrayHandle := name.

Definition TBranchMap : Type :=
  list (BranchHandle * (TProcessMethod * ArrayHandle)).

Record TreeWriter : Type := mkTreeWriter
  { fClassMap : list (TClass * TProcessMethod);
    fBranchMap : TBranchMap;
    (** the branches [NewBranch] has created in the tree writer *)
    fBranches : list BranchHandle;
    (** what has been written to [cout], one entry per line *)
    cout : list string }.

(** [fClassMap[key] = method] on a [std::map]. *)
Fixpoint class_map_set (m : list (TClass * TProcessMethod)) (key : TClass)
  (method : TProcessMethod) : list (TClass * TProcessMethod) :=
  match m with
  | [] => [(key, method)]
  | (k, v) :: rest =>
      if String.eqb k key then (key, method) :: rest
      else (k, v) :: class_map_set rest key method
  end.

(** [fClassMap.find(key)], [None] for [fClassMap.end()]. *)
Fixpoint class_map_find (m : list (TClass * TProcessMethod)) (key : TClass)
  : option TProcessMethod :=
  match m with
  | [] => None
  | (k, v) :: rest =>
      if String.eqb k key then Some v else class_map_find rest key
  end.

Definition Init_fClassMap : list (TClass * TProcessMethod) :=
  let m := [] in
  let m := class_map_set m "GenParticle"%string mProcessParticles in
  let m := class_map_set m "Vertex"%string mProcessVertices in
  let m := class_map_set m "Track"%string mProcessTracks in
  let m := class_map_set m "Tower"%string mProcessTowers in
  let m := class_map_set m "Photon"%string mProcessPhotons in
  let m := class_map_set m "Electron"%string mProcessElectrons in
  let m := class_map_set m "Muon"%string mProcessMuons in
  let m := class_map_set m "Jet"%string mProcessJets in
  let m := class_map_set m "MissingET"%string mProcessMissingET in
  let m := class_map_set m "ScalarHT"%string mProcessScalarHT in
  let m := class_map_set m "Rho"%string mProcessRho in
  let m := class_map_set m "Weight"%string mProcessWeight in
  let m := class_map_set m "HectorHit"%string mProcessHectorHit in
  m.

(** [param[i].GetString()]. *)
Definition GetString (param : list string) (i : nat) : string :=
  nth i param ""%string.

(** [NewBranch(name, cl)]: a new branch, distinct from those made before. *)
Definition NewBranch (tw : TreeWriter) (name : string) (cl : TClass)
  : BranchHandle * TreeWriter :=
  let branch := mkBranchHandle (List.length (fBranches tw)) name cl in
  (branch,
   mkTreeWriter (fClassMap tw) (fBranchMap tw) (fBranches tw ++ [branch])
     (cout tw)).

Definition print_line (tw : TreeWriter) (line : string) : TreeWriter :=
  mkTreeWriter (fClassMap tw) (fBranchMap tw) (fBranches tw)
    (cout tw ++ [line]).

(** [fBranchMap.insert(...)].  The map is keyed by the branch pointer; the
    branch is new, so the entry is always added, and the model lists the
    entries in the order the branches were made.  The map itself is visited
    in the order of the pointers, which need not be that order: what is
    proved of [Process] below for an arbitrary registry holds for every
    order of visit. *)
Definition branch_map_insert (tw : TreeWriter) (branch : BranchHandle)
  (method : TProcessMethod) (array : ArrayHandle) : TreeWriter :=
  mkTreeWriter (fClassMap tw)
    (fBranchMap tw ++ [(branch, (method, array))])
    (fBranches tw) (cout tw).

(** One turn of the loop over the configuration triples. *)
Definition Init_step (param : list string) (tw : TreeWriter) (i : nat)
  : TreeWriter :=
  let branchInputArray := GetString param (i * 3) in
  let branchName := GetString param (i * 3 + 1) in
  let branchClassName := GetString param (i * 3 + 2) in
  match GetClass branchClassName with
  | None =>
      print_line tw
        ("** ERROR: cannot find class '" ++ branchClassName ++ "'")%string
  | Some branchClass =>
      match class_map_find (fClassMap tw) branchClass with
      | None =>
          print_line tw
            ("** ERROR: cannot create branch for class '"
               ++ branchClassName ++ "'")%string
      | Some method =>
          let array := ImportArray branchInputArray in
          let '(branch, tw) := NewBranch tw branchName branchClass in
          branch_map_insert tw branch method array
      end
  end.

Definition Init (param : list string) : TreeWriter :=
  let tw := mkTreeWriter Init_fClassMap [] [] [] in
  let size := List.length param in
  fold_left (Init_step param) (seq 0 (size / 3)) tw.

(** ** Process *)

(** The objects the writer works on during an event: the imported arrays
    and the content of the branches. *)
Record Event : Type := mkEvent
  { arrays : ArrayHandle -> TObjArray;
    branches : nat -> ExRootTreeBranch }.

Definition set_array (f : ArrayHandle -> TObjArray) (a : ArrayHandle)
  (content : TObjArray) : ArrayHandle -> TObjArray :=
  fun a' => if String.eqb a a' then content else f a'.

Definition set_branch (f : nat -> ExRootTreeBranch) (b : nat)
  (content : ExRootTreeBranch) : nat -> ExRootTreeBranch :=
  fun b' => if Nat.eqb b b' then content else f b'.

Definition Process_step (ev : Event)
  (item : BranchHandle * (TProcessMethod * ArrayHandle)) : Outcome Event :=
  let branch := fst item in
  let method := fst (snd item) in
  let array := snd (snd item) in
  match invoke method (branches ev (branch_id branch)) (arrays ev array) with
  | Done (content, sorted) =>
      Done (mkEvent (set_array (arrays ev) array sorted)
              (set_branch (branches ev) (branch_id branch) content))
  | AssertionFailed => AssertionFailed
  | NullDereference => NullDereference
  end.

Definition Process (tw : TreeWriter) (ev : Event) : Outcome Event :=
  iterate Process_step (fBranchMap tw) ev.

(** ** A comparator instance and sample candidates

    Used to instantiate the statements below on concrete inputs. *)

(** Stable insertion sort by decreasing key: one admissible behaviour of
    [TObjArray::Sort()]. *)
Fixpoint insert_by (key : Candidate -> N) (x : Candidate) (l : TObjArray)
  : TObjArray :=
  match l with
  | [] => [x]
  | y :: rest =>
      if (key y <=? key x)%N then x :: y :: rest
      else y :: insert_by key x rest
  end.

Fixpoint sort_by (key : Candidate -> N) (l : TObjArray) : TObjArray :=
  match l with
  | [] => []
  | x :: rest => insert_by key x (sort_by key rest)
  end.

Definition sort_by_id : TObjArray -> TObjArray := sort_by GetUniqueID.

(** The order [sort_by] establishes. *)
Definition key_ge (key : Candidate -> N) (x y : Candidate) : Prop :=
  (key y <= key x)%N.

Definition origin : TLorentzVector := mkTLorentzVector 0.0 0.0 0.0 0.0.

Definition noGen : GenInfo := mkGenInfo 0 0 0 0 0 0 0 0 0.0.
Definition noTrack : TrackInfo := mkTrackInfo 0.0 0.0 0.0 0.0 0.0 [] [].
Definition noCalo : CaloInfo := mkCaloInfo 0.0 0.0 [] 0.
Definition noIso : IsolationInfo := mkIsolationInfo 0.0 0.0 0.0 0.0 0.0 0.0.
Definition noJet : JetInfo :=
  mkJetInfo origin 0.0 0.0 0 0 0 0 0 0 0 [] [] [] [] [] [] [] 0 0
    0.0 0.0 0.0 0.0 0 0 0 [] [] [] [] [].

(** A candidate with the given identifier, four-vectors and children, and
    every other field zero. *)
Definition node (id : N) (momentum position : TLorentzVector)
  (children : list Candidate) : Candidate :=
  mkCandidate id momentum position noGen noTrack noCalo noIso noJet
    children [] [].


Definition with_track (info : TrackInfo) (c : Candidate) : Candidate :=
  mkCandidate (fUniqueID c) (Momentum c) (Position c) (gen c) info
    (calo c) (iso c) (jet c) (fArray c) (fSubjets c) (fTracks c).

Definition particle1 : Candidate :=
  node 1 origin (mkTLorentzVector 1.0 2.0 3.0 1000.0) [].
Definition particle2 : Candidate := node 2 origin origin [].
Definition particle3 : Candidate := node 3 origin origin [].

Definition track1 : Candidate := node 11 origin origin [particle1].
Definition track2 : Candidate := node 12 origin origin [particle2].
Definition track3 : Candidate := node 13 origin origin [particle3; particle1].

Definition tower1 : Candidate := node 21 origin origin [track1; track2].
Definition tower2 : Candidate := node 22 origin origin [track3; track1].

(** A jet built from two towers; [particle1] is reachable three times. *)
Definition jet1 : Candidate := node 31 origin origin [tower1; tower2].

(** The enumeration order of the track parameters used in the examples. *)
Definition tp0 : TrackParam := mkTrackParam 0 1.


(** A track whose parameters are consistent but which has no originating
    particle. *)
Definition orphan_track : Candidate :=
  with_track (mkTrackInfo 1.0 0.0 0.0 0.0 2.0 [1.0; 2.0; 0.0; 0.0; 0.0] [])
    (node 14 origin origin []).

Definition good_track : Candidate :=
  with_track (mkTrackInfo 1.0 0.0 0.0 0.0 2.0 [1.0; 2.0; 0.0; 0.0; 0.0] [])
    track1.

(** The missing-energy example of the specification. *)
Definition met_candidate : Candidate :=
  node 41 (mkTLorentzVector 3.0 4.0 0.0 5.0) origin [].



(** Stand-ins for the angle functions of ROOT in the examples. *)
Definition eta0 (v : TLorentzVector) : float := 0.0.
Definition phi0 (v : TLorentzVector) : float := 0.0.
Definition rapidity0 (v : TLorentzVector) : float := 0.0.

(** A dictionary that knows every class but ["Bogus"]. *)
Definition GetClass0 (name : string) : option string :=
  if String.eqb name "Bogus" then None else Some name.

(** A configuration with two resolvable triples, one unknown class, one class
    without projector, and an incomplete trailer. *)
Definition param0 : list string :=
  ["tracks"; "Track"; "Track";
   "stuff"; "Stuff"; "Bogus";
   "cands"; "Raw"; "Candidate";
   "photons"; "Photon"; "Photon";
   "left"; "over"]%string.

(** Two branches bound to the same input array, the first read as it is, the
    second sorted; and two branches bound to arrays of their own. *)
Definition param_shared : list string :=
  ["towers"; "Tower"; "Tower"; "towers"; "Photon"; "Photon"]%string.

Definition param_apart : list string :=
  ["towers"; "Tower"; "Tower"; "photons"; "Photon"; "Photon"]%string.

Definition event0 : Event :=
  mkEvent (fun a => [particle1; particle2]) (fun b => []).

(** The event a call returned, [default] if it did not return. *)
Definition returned (default : Event) (o : Outcome Event) : Event :=
  match o with
  | Done ev => ev
  | _ => default
  end.

(** The identifier a record carries, 0 for the classes that carry none. *)
Definition record_id (o : TObject) : N :=
  match o with
  | ObjGenParticle e => GenParticle_UniqueID e
  | ObjTrack e => Track_UniqueID e
  | ObjTower e => Tower_UniqueID e
  | ObjMuon e => Muon_UniqueID e
  | _ => 0%N
  end.

(** ** The projection rules in the words of the specification *)

(** The time conversion: [time_out = time_in * 1.0e-3 / c]. *)
Definition time_out (time_in : float) : float :=
  time_in * 1.0e-3 / 2.99792458e8.

(** The degenerate-axis rule. *)
Definition on_beam_axis (v : TLorentzVector) : bool :=
  PrimFloat.abs (Vec.CosTheta v) =? 1.0.

Definition signPz (v : TLorentzVector) : float :=
  if 0.0 <=? Vec.Pz v then 1.0 else -1.0.

Definition sentinel_eta (v : TLorentzVector) : float :=
  if on_beam_axis v then signPz v * 999.9 else Eta v.

Definition sentinel_rapidity (v : TLorentzVector) : float :=
  if on_beam_axis v then signPz v * 999.9 else Rapidity v.



(** Which projectors sort their array, and which read the first entry
    only. *)
Definition sorts (method : TProcessMethod) : bool :=
  match method with
  | mProcessPhotons | mProcessElectrons | mProcessMuons | mProcessJets => true
  | _ => false
  end.

Definition singleton (method : TProcessMethod) : bool :=
  match method with
  | mProcessMissingET | mProcessScalarHT | mProcessWeight => true
  | _ => false
  end.

(** The order in which a projector visits its array. *)
Definition projection_order (method : TProcessMethod) (array : TObjArray)
  : TObjArray :=
  if sorts method then Sort array else array.

(** The finished track record of a candidate. *)
Definition track_record (candidate : Candidate) : Track :=
  match At (GetCandidates candidate) 0 with
  | Some particle =>
      ProcessTracks_finish (ProcessTracks_checked candidate) candidate particle
  | None => ProcessTracks_checked candidate
  end.

(** The record a projector makes of one candidate. *)
Definition record (method : TProcessMethod) (candidate : Candidate)
  : TObject :=
  match method with
  | mProcessParticles => ObjGenParticle (ProcessParticles_entry candidate)
  | mProcessVertices => ObjVertex (ProcessVertices_entry candidate)
  | mProcessTracks => ObjTrack (track_record candidate)
  | mProcessTowers => ObjTower (ProcessTowers_entry candidate)
  | mProcessPhotons => ObjPhoton (ProcessPhotons_entry candidate)
  | mProcessElectrons => ObjElectron (ProcessElectrons_entry candidate)
  | mProcessMuons => ObjMuon (ProcessMuons_entry candidate)
  | mProcessJets => ObjJet (ProcessJets_entry candidate)
  | mProcessMissingET => ObjMissingET (ProcessMissingET_entry candidate)
  | mProcessScalarHT => ObjScalarHT (ProcessScalarHT_entry candidate)
  | mProcessRho => ObjRho (ProcessRho_entry candidate)
  | mProcessWeight => ObjWeight (ProcessWeight_entry candidate)
  | mProcessHectorHit => ObjHectorHit (ProcessHectorHit_entry candidate)
  end.

(** The records a projector adds to its branch. *)
Definition emitted (method : TProcessMethod) (array : TObjArray)
  : list TObject :=
  if singleton method then
    match array with
    | [] => []
    | candidate :: _ => [record method candidate]
    end
  else map (record method) (projection_order method array).

(** A track candidate the projector can finish: the check passes on its
    entry and it has an originating particle. *)
Definition passes_check (candidate : Candidate) : bool :=
  check_d0_z0 tp (ProcessTracks_checked candidate).

Definition has_particle (candidate : Candidate) : bool :=
  match At (GetCandidates candidate) 0 with
  | Some _ => true
  | None => false
  end.

Definition projectable (method : TProcessMethod) (array : TObjArray) : bool :=
  match method with
  | mProcessTracks =>
      forallb (fun c => passes_check c && has_particle c) array
  | _ => true
  end.

(** The time fields a record exposes, and the internal times they come from:
    the position of the candidate, and for a track also the position of its
    originating particle. *)
Definition exposed_times (o : TObject) : list float :=
  match o with
  | ObjGenParticle e => [GenParticle_T e]
  | ObjVertex e => [Vertex_T e]
  | ObjTrack e => [Track_T e; Track_TOuter e]
  | ObjTower e => [Tower_T e]
  | ObjPhoton e => [Photon_T e]
  | ObjElectron e => [Electron_T e]
  | ObjMuon e => [Muon_T e]
  | ObjJet e => [Jet_T e]
  | ObjHectorHit e => [HectorHit_T e]
  | ObjMissingET _ | ObjScalarHT _ | ObjRho _ | ObjWeight _ => []
  end.

Definition source_times (method : TProcessMethod) (candidate : Candidate)
  : list float :=
  match method with
  | mProcessTracks =>
      match At (GetCandidates candidate) 0 with
      | Some particle =>
          [Vec.T (Position particle); Vec.T (Position candidate)]
      | None => []
      end
  | mProcessParticles | mProcessVertices | mProcessTowers | mProcessPhotons
  | mProcessElectrons | mProcessMuons | mProcessJets | mProcessHectorHit =>
      [Vec.T (Position candidate)]
  | mProcessMissingET | mProcessScalarHT | mProcessRho | mProcessWeight => []
  end.

(** The projectors that convert the time they expose. *)
Definition converts_time (method : TProcessMethod) : bool :=
  match method with
  | mProcessParticles | mProcessVertices | mProcessTracks | mProcessTowers
  | mProcessPhotons | mProcessElectrons | mProcessMuons | mProcessJets => true
  | _ => false
  end.

(** ** The registry in the words of the specification *)

(** The configuration read three strings at a time: input array, branch name,
    class name.  An incomplete trailer is not a triple. *)
Fixpoint triples (param : list string) : list (string * string * string) :=
  match param with
  | input :: name :: cls :: rest => (input, name, cls) :: triples rest
  | _ => []
  end.

(** A class name resolves when ROOT knows the class and a projector is
    registered for it. *)
Definition resolve (cls : string) : option (TClass * TProcessMethod) :=
  match GetClass cls with
  | None => None
  | Some branchClass =>
      match class_map_find Init_fClassMap branchClass with
      | None => None
      | Some method => Some (branchClass, method)
      end
  end.

(** What is reported for a class name, if anything. *)
Definition error_line (cls : string) : list string :=
  match GetClass cls with
  | None => [("** ERROR: cannot find class '" ++ cls ++ "'")%string]
  | Some branchClass =>
      match class_map_find Init_fClassMap branchClass with
      | None =>
          [("** ERROR: cannot create branch for class '" ++ cls ++ "'")%string]
      | Some _ => []
      end
  end.

(** The registry made of the resolvable triples, in order, the first new
    branch being the [n]-th. *)
Fixpoint registry_of (n : nat) (ts : list (string * string * string))
  : TBranchMap :=
  match ts with
  | [] => []
  | (input, name, cls) :: rest =>
      match resolve cls with
      | Some (branchClass, method) =>
          (mkBranchHandle n name branchClass, (method, input))
            :: registry_of (S n) rest
      | None => registry_of n rest
      end
  end.

Definition errors_of (ts : list (string * string * string)) : list string :=
  flat_map (fun t => error_line (snd t)) ts.

(** ** Arrays shared between branches *)

Definition method_of (item : BranchHandle * (TProcessMethod * ArrayHandle))
  : TProcessMethod := fst (snd item).

Definition array_of (item : BranchHandle * (TProcessMethod * ArrayHandle))
  : ArrayHandle := snd (snd item).

(** The array is read by some projector of the registry that does not sort. *)
Definition read_unsorted (registry : TBranchMap) (a : ArrayHandle) : bool :=
  existsb
    (fun item => negb (sorts (method_of item)) && String.eqb (array_of item) a)
    registry.

(** No array is bound both to a projector that sorts it and to one that reads
    it as it is. *)
Definition separated (registry : TBranchMap) : bool :=
  forallb
    (fun item =>
       implb (sorts (method_of item))
         (negb (read_unsorted registry (array_of item))))
    registry.

(** The second run of a pass: the arrays as the first run left them, the
    branches as they were before it. *)
Definition rerun (before after : Event) : Event :=
  mkEvent (arrays after) (branches before).

(** Two events agree for the registry: same branch contents, same arrays
    where a non-sorting projector reads them, and arrays that sort to the
    same content everywhere. *)
Definition agree (unsorted : ArrayHandle -> bool) (ev ev' : Event) : Prop :=
  (forall b, branches ev b = branches ev' b)
  /\ (forall a, unsorted a = true -> arrays ev a = arrays ev' a)
  /\ (forall a, Sort (arrays ev a) = Sort (arrays ev' a)).

(** The entry sorts its array exactly when no non-sorting projector reads
    that array. *)
Definition respects (unsorted : ArrayHandle -> bool)
  (item : BranchHandle * (TProcessMethod * ArrayHandle)) : Prop :=
  sorts (method_of item) = negb (unsorted (array_of item)).

(** Two calls end the same way, in agreeing events when they return. *)
Definition same_end (unsorted : ArrayHandle -> bool) (r r' : Outcome Event)
  : Prop :=
  match r, r' with
  | Done ev, Done ev' => agree unsorted ev ev'
  | AssertionFailed, AssertionFailed => True
  | NullDereference, NullDereference => True
  | _, _ => False
  end.

(** ** Further notions for describing the writer *)

(** The first track of an array the projector cannot finish. *)
Definition first_offender (array : TObjArray) : option Candidate :=
  find (fun c => negb (passes_check c && has_particle c)) array.

Definition is_track_method (method : TProcessMethod) : bool :=
  match method with
  | mProcessTracks => true
  | _ => false
  end.

(** Some branch of the registry is filled by the track projector. *)
Definition uses_tracks (registry : TBranchMap) : bool :=
  existsb (fun item => is_track_method (method_of item)) registry.

Definition id_of (item : BranchHandle * (TProcessMethod * ArrayHandle))
  : nat := branch_id (fst item).

(** The branch is one the registry fills. *)
Definition bound_branch (registry : TBranchMap) (b : nat) : bool :=
  existsb (fun item => Nat.eqb (id_of item) b) registry.

(** The array is bound to a projector that sorts it. *)
Definition sorted_in (registry : TBranchMap) (a : ArrayHandle) : bool :=
  existsb
    (fun item => sorts (method_of item) && String.eqb (array_of item) a)
    registry.

(** The class of an output record, and the class each projector casts its
    new entries to. *)
Definition class_of (o : TObject) : TClass :=
  match o with
  | ObjGenParticle _ => "GenParticle"
  | ObjVertex _ => "Vertex"
  | ObjTrack _ => "Track"
  | ObjTower _ => "Tower"
  | ObjPhoton _ => "Photon"
  | ObjElectron _ => "Electron"
  | ObjMuon _ => "Muon"
  | ObjJet _ => "Jet"
  | ObjMissingET _ => "MissingET"
  | ObjScalarHT _ => "ScalarHT"
  | ObjRho _ => "Rho"
  | ObjWeight _ => "Weight"
  | ObjHectorHit _ => "HectorHit"
  end%string.

Definition class_made_by (method : TProcessMethod) : TClass :=
  match method with
  | mProcessParticles => "GenParticle"
  | mProcessVertices => "Vertex"
  | mProcessTracks => "Track"
  | mProcessTowers => "Tower"
  | mProcessPhotons => "Photon"
  | mProcessElectrons => "Electron"
  | mProcessMuons => "Muon"
  | mProcessJets => "Jet"
  | mProcessMissingET => "MissingET"
  | mProcessScalarHT => "ScalarHT"
  | mProcessRho => "Rho"
  | mProcessWeight => "Weight"
  | mProcessHectorHit => "HectorHit"
  end%string.

(** The candidates one, two and three edges below a candidate. *)
Definition children_of (c : Candidate) : list Candidate := GetCandidates c.

Definition grandchildren_of (c : Candidate) : list Candidate :=
  flat_map GetCandidates (GetCandidates c).

Definition great_grandchildren_of (c : Candidate) : list Candidate :=
  flat_map GetCandidates (grandchildren_of c).

(** A track whose impact parameters are both not-a-number. *)
Definition nan_track : Candidate :=
  with_track (mkTrackInfo nan 0.0 0.0 0.0 nan [1.0; 2.0; 0.0; 0.0; 0.0] [])
    track1.

(** An event with an unsorted photon array and tracks that can be
    projected. *)
Definition event1 : Event :=
  mkEvent
    (fun a => if String.eqb a "tracks" then [good_track; good_track]
              else [particle1; particle2])
    (fun b => []).

(** The pseudorapidity and rapidity fields a record exposes, and what the
    projector puts there: the sentinel rule on the momentum (for a track also
    on the position at the outer surface), except in the missing-energy
    record, whose [Eta] is the angle of the negated momentum as [Eta] itself
    returns it. *)
Definition exposed_etas (o : TObject) : list float :=
  match o with
  | ObjGenParticle e => [GenParticle_Eta e; GenParticle_Rapidity e]
  | ObjTrack e => [Track_Eta e; Track_EtaOuter e]
  | ObjTower e => [Tower_Eta e]
  | ObjPhoton e => [Photon_Eta e]
  | ObjElectron e => [Electron_Eta e]
  | ObjMuon e => [Muon_Eta e]
  | ObjJet e => [Jet_Eta e]
  | ObjMissingET e => [MissingET_Eta e]
  | ObjVertex _ | ObjScalarHT _ | ObjRho _ | ObjWeight _
  | ObjHectorHit _ => []
  end.

Definition angle_fields (method : TProcessMethod) (candidate : Candidate)
  : list float :=
  match method with
  | mProcessParticles =>
      [sentinel_eta (Momentum candidate);
       sentinel_rapidity (Momentum candidate)]
  | mProcessTracks =>
      [sentinel_eta (Momentum candidate); sentinel_eta (Position candidate)]
  | mProcessTowers | mProcessPhotons | mProcessElectrons | mProcessMuons
  | mProcessJets => [sentinel_eta (Momentum candidate)]
  | mProcessMissingET => [Eta (Vec.neg (Momentum candidate))]
  | mProcessVertices | mProcessScalarHT | mProcessRho | mProcessWeight
  | mProcessHectorHit => []
  end.

(** The candidates a projector makes records of, in the order it visits
    them: the first entry for a singleton projector. *)
Definition visited (method : TProcessMethod) (array : TObjArray)
  : TObjArray :=
  if singleton method then firstn 1 array
  else projection_order method array.

(** ROOT's [TVector3::PseudoRapidity], which is what [Eta] returns: on the
    beam axis it needs no logarithm and yields 0 or plus or minus [10e10];
    elsewhere the value is left to [off_axis]. *)
Definition PseudoRapidity (off_axis : TLorentzVector -> float)
  (v : TLorentzVector) : float :=
  let cosTheta := Vec.CosTheta v in
  if cosTheta * cosTheta <? 1.0 then off_axis v
  else if fZ v =? 0.0 then 0.0
  else if 0.0 <? fZ v then 10e10
  else -10e10.

(** Missing energy along the beam axis. *)
Definition axis_candidate : Candidate :=
  node 42 (mkTLorentzVector 0.0 0.0 5.0 5.0) origin [].

(** * Properties *)

(** ** Loops as maps *)

Lemma fold_left_NewEntry (A : Type) (f : A -> TObject) (l : list A)
  (branch : ExRootTreeBranch) :
  fold_left (fun br x => NewEntry br (f x)) l branch = branch ++ map f l.
Proof.
  revert branch.
  induction l as [|x l IH]; intros branch; simpl.
  - now rewrite app_nil_r.
  - rewrite IH. unfold NewEntry. now rewrite <- app_assoc.
Qed.


(** ** FillParticles *)

Lemma TRefArray_Add_first_child (array : TRefArray) (c : Candidate) :
  TRefArray_Add array (At (GetCandidates c) 0) = array ++ first_child c.
Proof.
  unfold first_child, At.
  destruct (GetCandidates c) as [|p rest]; simpl.
  - now rewrite app_nil_r.
  - reflexivity.
Qed.

Lemma FillParticles_tower_spec (it2 : TObjArray) (array : TRefArray) :
  FillParticles_tower it2 array = array ++ flat_map first_child it2.
Proof.
  unfold FillParticles_tower.
  revert array.
  induction it2 as [|g it2 IH]; intros array; cbn [fold_left flat_map].
  - now rewrite app_nil_r.
  - rewrite IH, TRefArray_Add_first_child. now rewrite <- app_assoc.
Qed.

Lemma FillParticles_step_spec (array : TRefArray) (child : Candidate) :
  FillParticles_step array child = array ++ flatten_child child.
Proof.
  unfold FillParticles_step, flatten_child, GetEntriesFast.
  destruct (GetCandidates child) as [|first rest] eqn:Hchild.
  - reflexivity.
  - destruct (GetCandidates first) as [|p ps] eqn:Hfirst; cbn [length].
    + reflexivity.
    + now rewrite FillParticles_tower_spec.
Qed.

Lemma FillParticles_loop_spec (it1 : TObjArray) (array : TRefArray) :
  fold_left FillParticles_step it1 array
  = array ++ flat_map flatten_child it1.
Proof.
  revert array.
  induction it1 as [|child it1 IH]; intros array; simpl.
  - now rewrite app_nil_r.
  - rewrite IH, FillParticles_step_spec. now rewrite <- app_assoc.
Qed.

Lemma first_child_length (g : Candidate) :
  has_children g = true -> length (first_child g) = 1%nat.
Proof.
  unfold has_children, first_child, GetEntriesFast.
  destruct (GetCandidates g); simpl; [discriminate | reflexivity].
Qed.

Lemma flat_map_first_child_length (l : TObjArray) :
  forallb has_children l = true ->
  length (flat_map first_child l) = length l.
Proof.
  induction l as [|g l IH]; simpl; intros H.
  - reflexivity.
  - apply andb_true_iff in H as [Hg Hl].
    rewrite length_app, first_child_length, IH by assumption.
    reflexivity.
Qed.

Lemma flatten_child_tower_length (child : Candidate) :
  has_children child = true ->
  forallb has_children (GetCandidates child) = true ->
  length (flatten_child child) = length (GetCandidates child).
Proof.
  intros Hc Hg.
  unfold flatten_child.
  destruct (GetCandidates child) as [|first rest] eqn:Hchild.
  - unfold has_children, GetEntriesFast in Hc. rewrite Hchild in Hc.
    discriminate.
  - pose proof Hg as Hg'. simpl in Hg'.
    apply andb_true_iff in Hg' as [Hfirst _].
    unfold has_children, GetEntriesFast in Hfirst.
    destruct (GetCandidates first) as [|p ps] eqn:Hp; [discriminate|].
    now apply flat_map_first_child_length.
Qed.

Lemma flatten_tower_length (children : TObjArray) :
  forallb
    (fun child => has_children child
                  && forallb has_children (GetCandidates child))
    children = true ->
  length (flat_map flatten_child children)
  = list_sum (map (fun child => length (GetCandidates child)) children).
Proof.
  induction children as [|child children IH]; simpl; intros H.
  - reflexivity.
  - apply andb_true_iff in H as [Hc Hrest].
    apply andb_true_iff in Hc as [Hc Hg].
    rewrite length_app, IH, flatten_child_tower_length by assumption.
    reflexivity.
Qed.

(** C1: FillParticles clears the output list and then appends, child by
    child and in order, the child itself (no children), the child's first
    child (when that one has no children), or the first child of each of the
    child's children; nothing is deduplicated.  For a candidate of the tower
    shape the result has as many entries as there are grandchildren, and a
    candidate without children yields the empty list. *)
Theorem FillParticles_flattens (candidate : Candidate) (array : TRefArray) :
  FillParticles candidate array = flatten_spec candidate
  /\ (tower_shape candidate = true ->
      length (FillParticles candidate array) = grandchildren_count candidate)
  /\ (GetCandidates candidate = [] -> FillParticles candidate array = [])
  /\ (forall leaf,
        GetCandidates leaf = [] ->
        GetCandidates candidate = [leaf; leaf] ->
        FillParticles candidate array = [leaf; leaf]).
Proof.
  assert (Hspec : FillParticles candidate array = flatten_spec candidate).
  { unfold FillParticles, flatten_spec.
    now rewrite FillParticles_loop_spec. }
  split; [exact Hspec|].
  rewrite Hspec. unfold flatten_spec.
  split; [|split].
  - intros Hshape. now apply flatten_tower_length.
  - intros Hempty. now rewrite Hempty.
  - intros leaf Hleaf Hchildren. rewrite Hchildren. simpl.
    unfold flatten_child. now rewrite Hleaf.
Qed.

(** ** The projectors, one record per candidate *)

Lemma ProcessTracks_loop (array : TObjArray) (branch : ExRootTreeBranch) :
  forallb (fun c => passes_check c && has_particle c) array = true ->
  iterate ProcessTracks_body array branch
  = Done (branch ++ map (fun c => ObjTrack (track_record c)) array).
Proof.
  revert branch.
  induction array as [|c array IH]; intros branch H; cbn [iterate map].
  - now rewrite app_nil_r.
  - cbn [forallb] in H.
    apply andb_true_iff in H as [Hc Hrest].
    apply andb_true_iff in Hc as [Hcheck Hpart].
    unfold ProcessTracks_body at 1.
    unfold passes_check in Hcheck. rewrite Hcheck. cbn [negb].
    unfold track_record at 1. unfold has_particle in Hpart.
    destruct (At (GetCandidates c) 0) as [particle|]; [|discriminate].
    rewrite IH by assumption.
    unfold NewEntry. now rewrite <- app_assoc.
Qed.

(** The first track that fails the check, or lacks a particle, stops the
    loop. *)
Lemma ProcessTracks_loop_stops (array : TObjArray)
  (branch : ExRootTreeBranch) :
  forallb (fun c => passes_check c && has_particle c) array = false ->
  iterate ProcessTracks_body array branch = AssertionFailed
  \/ iterate ProcessTracks_body array branch = NullDereference.
Proof.
  revert branch.
  induction array as [|c array IH]; intros branch H; cbn [iterate].
  - discriminate.
  - cbn [forallb] in H.
    unfold ProcessTracks_body at 1 3.
    fold (passes_check c).
    destruct (passes_check c) eqn:Hcheck; cbn [negb]; [|now left].
    unfold has_particle in H.
    destruct (At (GetCandidates c) 0) as [particle|]; [|now right].
    cbn [andb] in H. now apply IH.
Qed.

Lemma invoke_spec (method : TProcessMethod) (branch : ExRootTreeBranch)
  (array : TObjArray) :
  projectable method array = true ->
  invoke method branch array
  = Done (branch ++ emitted method array, projection_order method array).
Proof.
  intros H.
  destruct method; cbn [invoke];
    unfold emitted, projection_order; cbn [singleton sorts record];
    try (unfold ProcessParticles, ProcessVertices, ProcessTowers,
           ProcessPhotons, ProcessElectrons, ProcessMuons, ProcessJets,
           ProcessRho, ProcessHectorHit;
         cbv zeta; now rewrite fold_left_NewEntry);
    try (unfold ProcessMissingET, ProcessScalarHT, ProcessWeight, At, NewEntry;
         destruct array as [|c rest]; cbn [nth_error];
         [now rewrite app_nil_r | reflexivity]).
  unfold ProcessTracks. cbn [projectable] in H.
  now rewrite ProcessTracks_loop.
Qed.

(** The array a projector leaves behind is the array in projection order,
    also when the call is made on an array it cannot finish. *)
Lemma invoke_array (method : TProcessMethod) (branch content : ExRootTreeBranch)
  (array sorted : TObjArray) :
  invoke method branch array = Done (content, sorted) ->
  content = branch ++ emitted method array
  /\ sorted = projection_order method array.
Proof.
  intros H.
  destruct (projectable method array) eqn:Hp.
  - rewrite invoke_spec in H by assumption.
    injection H as <- <-. now split.
  - destruct method; try discriminate Hp.
    cbn [invoke projectable] in *. unfold ProcessTracks in H.
    destruct (ProcessTracks_loop_stops array branch Hp) as [E|E];
      rewrite E in H; discriminate.
Qed.

(** ** Deposit sums of a jet *)

Lemma ProcessJets_constituents_loop (l : TObjArray) (acc : TRefArray)
  (ecal hcal : float) :
  fold_left ProcessJets_constituent l (acc, ecal, hcal)
  = (acc ++ l,
     fold_left (fun s c => s + Eem c) l ecal,
     fold_left (fun s c => s + Ehad c) l hcal).
Proof.
  revert acc ecal hcal.
  induction l as [|c l IH]; intros acc ecal hcal; cbn [fold_left].
  - now rewrite app_nil_r.
  - cbn [ProcessJets_constituent TRefArray_Add].
    rewrite IH. now rewrite <- app_assoc.
Qed.



(** ** Kinematics *)

Lemma record_etas (method : TProcessMethod) (candidate : Candidate) :
  (method = mProcessTracks -> has_particle candidate = true) ->
  exposed_etas (record method candidate) = angle_fields method candidate.
Proof.
  intros Htrack.
  destruct method; try reflexivity.
  - specialize (Htrack eq_refl). unfold has_particle in Htrack.
    cbn [record angle_fields]. unfold track_record.
    destruct (At (GetCandidates candidate) 0) as [particle|];
      [reflexivity | discriminate].
  - cbn [record angle_fields exposed_etas]. unfold ProcessJets_entry.
    cbv zeta. rewrite ProcessJets_constituents_loop. reflexivity.
Qed.

(** C3 (as amended): in the particle, track, tower, photon, electron, muon
    and jet records, when the absolute cosine of the polar angle compares
    equal to 1.0 the pseudorapidity fields (and the particle's rapidity)
    hold 999.9 with the sign of the longitudinal component (non-negative
    gives +999.9), and otherwise the values of [Eta] and [Rapidity]; the
    [Eta] of the missing-energy record is the value of [Eta] on the negated
    momentum in every case, with no sentinel. *)
Theorem degenerate_axis_sentinel
  (candidate particle : Candidate) (entry : Track) (v : TLorentzVector)
  (method : TProcessMethod) (branch : ExRootTreeBranch) (array : TObjArray) :
  (GenParticle_Eta (ProcessParticles_entry candidate)
   = sentinel_eta (Momentum candidate)
   /\ GenParticle_Rapidity (ProcessParticles_entry candidate)
      = sentinel_rapidity (Momentum candidate)
   /\ Track_EtaOuter (ProcessTracks_checked candidate)
      = sentinel_eta (Position candidate)
   /\ Track_EtaOuter (ProcessTracks_finish entry candidate particle)
      = Track_EtaOuter entry
   /\ Track_Eta (ProcessTracks_finish entry candidate particle)
      = sentinel_eta (Momentum candidate)
   /\ Tower_Eta (ProcessTowers_entry candidate)
      = sentinel_eta (Momentum candidate)
   /\ Photon_Eta (ProcessPhotons_entry candidate)
      = sentinel_eta (Momentum candidate)
   /\ Electron_Eta (ProcessElectrons_entry candidate)
      = sentinel_eta (Momentum candidate)
   /\ Muon_Eta (ProcessMuons_entry candidate)
      = sentinel_eta (Momentum candidate)
   /\ Jet_Eta (ProcessJets_entry candidate)
      = sentinel_eta (Momentum candidate))
  /\ (on_beam_axis v = true -> (0.0 <=? Vec.Pz v) = true ->
      sentinel_eta v = 999.9 /\ sentinel_rapidity v = 999.9)
  /\ (on_beam_axis v = true -> (0.0 <=? Vec.Pz v) = false ->
      sentinel_eta v = -999.9 /\ sentinel_rapidity v = -999.9)
  /\ (on_beam_axis v = false ->
      sentinel_eta v = Eta v /\ sentinel_rapidity v = Rapidity v)
  /\ MissingET_Eta (ProcessMissingET_entry candidate)
     = Eta (Vec.neg (Momentum candidate))
  /\ (projectable method array = true ->
      exists out,
        invoke method branch array
        = Done (branch ++ out, projection_order method array)
        /\ map exposed_etas out
           = map (angle_fields method) (visited method array)).
Proof.
  split.
  { repeat split; try reflexivity.
    unfold ProcessJets_entry. cbv zeta.
    rewrite ProcessJets_constituents_loop. reflexivity. }
  unfold sentinel_eta, sentinel_rapidity, signPz.
  split; [|split; [|split; [|split]]].
  - intros Haxis Hsign. rewrite Haxis, Hsign. now split.
  - intros Haxis Hsign. rewrite Haxis, Hsign. now split.
  - intros Haxis. rewrite Haxis. now split.
  - reflexivity.
  - intros Hproj.
    exists (emitted method array).
    split; [now apply invoke_spec|].
    unfold emitted, visited.
    destruct (singleton method) eqn:Hsingle.
    + destruct array as [|c rest]; [reflexivity|].
      cbn [firstn map]. f_equal.
      apply record_etas. intros ->. discriminate Hsingle.
    + rewrite map_map. apply map_ext_in. intros c Hin.
      apply record_etas. intros ->.
      cbn [projectable projection_order sorts] in *.
      rewrite forallb_forall in Hproj.
      specialize (Hproj c Hin).
      now apply andb_true_iff in Hproj.
Qed.

(** ** Singleton projectors *)

(** C6: on a non-empty array the missing-energy projector makes exactly one
    record, from the first entry: [MET] is the transverse magnitude of its
    momentum and the angles are those of the negated momentum. *)
Theorem ProcessMissingET_first_entry
  (branch : ExRootTreeBranch) (candidate : Candidate) (rest : TObjArray) :
  ProcessMissingET branch (candidate :: rest)
  = (branch
       ++ [ObjMissingET
             {| MissingET_Eta := Eta (Vec.neg (Momentum candidate));
                MissingET_Phi := Phi (Vec.neg (Momentum candidate));
                MissingET_MET := Vec.Pt (Momentum candidate) |}],
     candidate :: rest)
  /\ (Momentum candidate = mkTLorentzVector 3.0 4.0 0.0 5.0 ->
      ProcessMissingET_entry candidate
      = {| MissingET_Eta := Eta (mkTLorentzVector (-3.0) (-4.0) (-0.0) (-5.0));
           MissingET_Phi := Phi (mkTLorentzVector (-3.0) (-4.0) (-0.0) (-5.0));
           MissingET_MET := 5.0 |}
      /\ (Vec.Pz (Vec.neg (Momentum candidate)) =? 0.0) = true).
Proof.
  split.
  - reflexivity.
  - intros Hm. unfold ProcessMissingET_entry. rewrite Hm. now split.
Qed.

(** C10: on an empty array the three singleton projectors find a null first
    entry, add no record and return. *)
Theorem singletons_skip_empty_array (branch : ExRootTreeBranch) :
  ProcessMissingET branch [] = (branch, [])
  /\ ProcessScalarHT branch [] = (branch, [])
  /\ ProcessWeight branch [] = (branch, [])
  /\ (forall method,
        singleton method = true ->
        invoke method branch [] = Done (branch, [])).
Proof.
  repeat split.
  intros method Hs.
  rewrite invoke_spec.
  - unfold emitted, projection_order. rewrite Hs.
    destruct method; try discriminate Hs; cbn [sorts];
      now rewrite app_nil_r.
  - destruct method; try discriminate Hs; reflexivity.
Qed.

(** ** Time fields *)

Lemma record_times (method : TProcessMethod) (candidate : Candidate) :
  converts_time method = true ->
  (method = mProcessTracks -> has_particle candidate = true) ->
  exposed_times (record method candidate)
  = map time_out (source_times method candidate).
Proof.
  intros Hconv Htrack.
  destruct method; try discriminate Hconv; try reflexivity.
  - specialize (Htrack eq_refl). unfold has_particle in Htrack.
    cbn [record source_times]. unfold track_record.
    destruct (At (GetCandidates candidate) 0) as [particle|];
      [reflexivity | discriminate].
  - cbn [record source_times exposed_times]. unfold ProcessJets_entry.
    cbv zeta. rewrite ProcessJets_constituents_loop. reflexivity.
Qed.

(** C2 (as amended): every time field exposed by the particle, vertex, track
    (inner and outer), tower, photon, electron, muon and jet projectors holds
    the internal time multiplied by 1.0e-3 and divided by c = 2.99792458e8;
    the far-detector hit record holds the internal time as it is. *)
Theorem time_fields_converted
  (method : TProcessMethod) (branch : ExRootTreeBranch) (array : TObjArray) :
  (converts_time method = true ->
   projectable method array = true ->
   exists out,
     invoke method branch array
     = Done (branch ++ out, projection_order method array)
     /\ map exposed_times out
        = map (fun c => map time_out (source_times method c))
            (projection_order method array))
  /\ (exists out,
        invoke mProcessHectorHit branch array = Done (branch ++ out, array)
        /\ map exposed_times out
           = map (fun c => [Vec.T (Position c)]) array).
Proof.
  split.
  - intros Hconv Hproj.
    exists (emitted method array).
    split; [now apply invoke_spec|].
    unfold emitted.
    replace (singleton method) with false
      by (destruct method; try discriminate Hconv; reflexivity).
    rewrite map_map.
    apply map_ext_in. intros c Hin.
    apply record_times; [assumption|].
    intros ->. cbn [projectable projection_order sorts] in *.
    rewrite forallb_forall in Hproj.
    specialize (Hproj c Hin).
    now apply andb_true_iff in Hproj.
  - exists (emitted mProcessHectorHit array).
    split; [now apply invoke_spec|].
    unfold emitted. cbn [singleton projection_order sorts].
    rewrite map_map. reflexivity.
Qed.

(** ** The track consistency check *)

Lemma compare_within_tolerance (quant1 quant2 : float) :
  compare quant1 quant2 = within_tolerance quant1 quant2.
Proof.
  unfold compare, within_tolerance. cbv zeta.
  destruct (PrimFloat.abs (quant1 - quant2) <? 1e-15); cbn [orb];
    [reflexivity|].
  now destruct (1e-9 <? PrimFloat.abs ((quant1 - quant2) / quant1)).
Qed.

Lemma idx_copy_array_5 (src : list float) (i : nat) :
  (i < 5)%nat -> idx (copy_array 5 src) i = idx src i.
Proof.
  intros Hi. unfold copy_array, idx. cbn [seq map].
  do 5 (destruct i as [|i]; [reflexivity|]).
  lia.
Qed.

Section TrackCheck.

(** [TrackParam::D0] and [TrackParam::Z0] index the five-element parameter
    vector. *)
Hypothesis D0_in_range : (TrackParam_D0 tp < 5)%nat.
Hypothesis Z0_in_range : (TrackParam_Z0 tp < 5)%nat.

Lemma passes_check_consistent (candidate : Candidate) :
  passes_check candidate = consistent_track tp candidate.
Proof.
  unfold passes_check, check_d0_z0, consistent_track.
  cbn [ProcessTracks_checked Track_Zd Track_Dxy Track_trkPar].
  rewrite (compare_within_tolerance (Zd candidate)).
  rewrite (compare_within_tolerance (Dxy candidate)).
  rewrite (idx_copy_array_5 _ _ Z0_in_range).
  rewrite (idx_copy_array_5 _ _ D0_in_range).
  destruct (within_tolerance (Zd candidate) _); cbn [negb andb];
    [|reflexivity].
  now destruct (within_tolerance (Dxy candidate) _).
Qed.

Lemma ProcessTracks_loop_no_assert (array : TObjArray)
  (branch : ExRootTreeBranch) :
  forallb passes_check array = true ->
  iterate ProcessTracks_body array branch <> AssertionFailed.
Proof.
  revert branch.
  induction array as [|c array IH]; intros branch H; cbn [iterate].
  - discriminate.
  - cbn [forallb] in H. apply andb_true_iff in H as [Hc Hrest].
    unfold ProcessTracks_body at 1.
    unfold passes_check in Hc. rewrite Hc. cbn [negb].
    destruct (At (GetCandidates c) 0) as [particle|];
      [now apply IH | discriminate].
Qed.

(** C9 (as amended): the assertion of the track projector holds exactly when
    [Zd] agrees with [trkPar[Z0]] and [Dxy] with [trkPar[D0]] up to an
    absolute difference below 1e-15 or a relative difference of at most
    1e-9.  When every input track satisfies that relation the assertion
    never fails, and when every input track also has an originating particle
    the projection completes with one record per track. *)
Theorem ProcessTracks_assertion
  (branch : ExRootTreeBranch) (array : TObjArray) :
  (forall candidate,
     check_d0_z0 tp (ProcessTracks_checked candidate)
     = consistent_track tp candidate)
  /\ (forallb (consistent_track tp) array = true ->
      ProcessTracks branch array <> AssertionFailed)
  /\ (forallb (consistent_track tp) array = true ->
      forallb has_particle array = true ->
      ProcessTracks branch array
      = Done (branch ++ map (fun c => ObjTrack (track_record c)) array,
              array)).
Proof.
  split; [exact passes_check_consistent|].
  split.
  - intros Hcons Hfail.
    unfold ProcessTracks in Hfail.
    assert (Hpass : forallb passes_check array = true).
    { apply forallb_forall. intros c Hin.
      rewrite passes_check_consistent.
      rewrite forallb_forall in Hcons. now apply Hcons. }
    pose proof (ProcessTracks_loop_no_assert array branch Hpass) as Hno.
    destruct (iterate ProcessTracks_body array branch);
      congruence.
  - intros Hcons Hpart.
    unfold ProcessTracks.
    rewrite ProcessTracks_loop; [reflexivity|].
    rewrite forallb_forall in *.
    intros c Hin.
    rewrite passes_check_consistent, (Hcons c Hin), (Hpart c Hin).
    reflexivity.
Qed.

End TrackCheck.

(** ** One record per candidate *)

Section SortKeepsSize.

(** Sorting rearranges the array. *)
Hypothesis Sort_Permutation : forall l, Permutation (Sort l) l.


End SortKeepsSize.

(** ** Init *)

Lemma list_ind3 (A : Type) (P : list A -> Prop) :
  P [] ->
  (forall a, P [a]) ->
  (forall a b, P [a; b]) ->
  (forall a b c rest, P rest -> P (a :: b :: c :: rest)) ->
  forall l, P l.
Proof.
  intros H0 H1 H2 H3.
  fix IH 1.
  intros [|a [|b [|c rest]]].
  - exact H0.
  - apply H1.
  - apply H2.
  - apply H3, IH.
Qed.

Lemma fold_left_ext_eq (A B : Type) (f g : A -> B -> A) (l : list B) (a : A) :
  (forall x y, f x y = g x y) -> fold_left f l a = fold_left g l a.
Proof.
  intros Hfg. revert a.
  induction l as [|y l IH]; intros a; simpl.
  - reflexivity.
  - now rewrite Hfg, IH.
Qed.

Lemma fold_left_seq_shift (A : Type) (f : A -> nat -> A) (n : nat) (a : A) :
  fold_left f (seq 1 n) a = fold_left (fun x i => f x (S i)) (seq 0 n) a.
Proof.
  rewrite <- seq_shift.
  generalize (seq 0 n) as l. intros l. revert a.
  induction l as [|i l IH]; intros a; simpl.
  - reflexivity.
  - apply IH.
Qed.

Lemma length_div3 (A : Type) (a b c : A) (rest : list A) :
  (length (a :: b :: c :: rest) / 3 = S (length rest / 3))%nat.
Proof.
  cbn [length].
  replace (S (S (S (length rest)))) with (length rest + 1 * 3)%nat by lia.
  rewrite Nat.div_add by lia. lia.
Qed.

Lemma Init_step_shift (a b c : string) (rest : list string)
  (tw : TreeWriter) (i : nat) :
  Init_step (a :: b :: c :: rest) tw (S i) = Init_step rest tw i.
Proof.
  unfold Init_step, GetString.
  replace (S i * 3)%nat with (S (S (S (i * 3)))) by lia.
  replace (S (S (S (i * 3))) + 1)%nat with (S (S (S (i * 3 + 1)))) by lia.
  replace (S (S (S (i * 3))) + 2)%nat with (S (S (S (i * 3 + 2)))) by lia.
  reflexivity.
Qed.

Lemma Init_step_first (a b c : string) (rest : list string) (tw : TreeWriter) :
  fClassMap tw = Init_fClassMap ->
  let tw1 := Init_step (a :: b :: c :: rest) tw 0 in
  fClassMap tw1 = Init_fClassMap
  /\ cout tw1 = cout tw ++ error_line c
  /\ match resolve c with
     | Some (branchClass, method) =>
         fBranchMap tw1
         = fBranchMap tw
             ++ [(mkBranchHandle (length (fBranches tw)) b branchClass,
                  (method, a))]
         /\ length (fBranches tw1) = S (length (fBranches tw))
     | None =>
         fBranchMap tw1 = fBranchMap tw
         /\ length (fBranches tw1) = length (fBranches tw)
     end.
Proof.
  intros Hmap. cbv zeta.
  unfold Init_step, GetString, resolve, error_line.
  cbn [Nat.mul Nat.add nth]. rewrite Hmap.
  destruct (GetClass c) as [branchClass|].
  - destruct (class_map_find Init_fClassMap branchClass) as [method|].
    + cbn. rewrite app_nil_r, length_app, Nat.add_1_r.
      repeat split. exact Hmap.
    + cbn. repeat split. exact Hmap.
  - cbn. repeat split. exact Hmap.
Qed.

Lemma Init_loop_spec (param : list string) :
  forall tw,
    fClassMap tw = Init_fClassMap ->
    let tw' := fold_left (Init_step param) (seq 0 (length param / 3)) tw in
    fClassMap tw' = Init_fClassMap
    /\ fBranchMap tw'
       = fBranchMap tw
           ++ registry_of (length (fBranches tw)) (triples param)
    /\ cout tw' = cout tw ++ errors_of (triples param).
Proof.
  induction param as [| a | a b | a b c rest IH] using list_ind3;
    intros tw Hmap; cbv zeta.
  - cbn. now rewrite !app_nil_r.
  - cbn. now rewrite !app_nil_r.
  - cbn. now rewrite !app_nil_r.
  - rewrite length_div3. cbn [seq fold_left].
    rewrite fold_left_seq_shift.
    rewrite (fold_left_ext_eq _ _ _ (Init_step rest))
      by (intros x y; apply Init_step_shift).
    destruct (Init_step_first a b c rest tw Hmap) as (H1 & H2 & H3).
    cbv zeta in H1, H2, H3.
    destruct (IH _ H1) as (IH1 & IH2 & IH3). cbv zeta in IH1, IH2, IH3.
    rewrite IH1, IH2, IH3, H2.
    cbn [triples registry_of errors_of flat_map snd].
    split; [reflexivity|].
    split; [|now rewrite <- app_assoc].
    destruct (resolve c) as [[branchClass method]|].
    + destruct H3 as [H3 H4]. rewrite H3, H4.
      now rewrite <- app_assoc.
    + destruct H3 as [H3 H4]. now rewrite H3, H4.
Qed.

Lemma registry_of_sound (ts : list (string * string * string)) :
  forall n branch method array,
    In (branch, (method, array)) (registry_of n ts) ->
    exists cls,
      In (array, branch_name branch, cls) ts
      /\ resolve cls = Some (branch_class branch, method).
Proof.
  induction ts as [|[[input name] cls] ts IH]; intros n branch method array;
    cbn [registry_of].
  - intros [].
  - destruct (resolve cls) as [[branchClass m]|] eqn:Hres.
    + intros [Heq | Hin].
      * injection Heq as <- <- <-. exists cls. split; [now left | exact Hres].
      * destruct (IH _ _ _ _ Hin) as (cls' & Hin' & Hres').
        exists cls'. split; [now right | exact Hres'].
    + intros Hin.
      destruct (IH _ _ _ _ Hin) as (cls' & Hin' & Hres').
      exists cls'. split; [now right | exact Hres'].
Qed.

Lemma registry_of_complete (ts : list (string * string * string)) :
  forall n input name cls branchClass method,
    In (input, name, cls) ts ->
    resolve cls = Some (branchClass, method) ->
    exists id,
      In (mkBranchHandle id name branchClass, (method, input))
        (registry_of n ts).
Proof.
  induction ts as [|[[input' name'] cls'] ts IH];
    intros n input name cls branchClass method; cbn [registry_of].
  - intros [].
  - intros [Heq | Hin] Hres.
    + injection Heq as -> -> ->. rewrite Hres. exists n. now left.
    + destruct (IH n _ _ _ _ _ Hin Hres) as [id1 H1].
      destruct (IH (S n) _ _ _ _ _ Hin Hres) as [id2 H2].
      destruct (resolve cls') as [[bc m]|].
      * exists id2. now right.
      * exists id1. exact H1.
Qed.

Lemma errors_of_complete (ts : list (string * string * string)) :
  forall input name cls line,
    In (input, name, cls) ts ->
    In line (error_line cls) ->
    In line (errors_of ts).
Proof.
  intros input name cls line Hin Hline.
  unfold errors_of. apply in_flat_map.
  exists (input, name, cls). now split.
Qed.

Lemma error_line_unresolved (cls : string) :
  resolve cls = None -> exists line, error_line cls = [line].
Proof.
  unfold resolve, error_line.
  destruct (GetClass cls) as [branchClass|]; [|now eexists].
  destruct (class_map_find Init_fClassMap branchClass); [discriminate|].
  now eexists.
Qed.

(** C7: a triple whose class name ROOT does not know, or for whose class no
    projector is registered, is reported and skipped: it adds one line to the
    log and no entry to the registry, and the registry holds, in order, an
    entry for every other triple; [Process] visits exactly those. *)
Theorem Init_skips_unresolved_triples (param : list string) :
  fBranchMap (Init param) = registry_of 0 (triples param)
  /\ cout (Init param) = errors_of (triples param)
  /\ (forall branch method array,
        In (branch, (method, array)) (fBranchMap (Init param)) ->
        exists cls,
          In (array, branch_name branch, cls) (triples param)
          /\ resolve cls = Some (branch_class branch, method))
  /\ (forall input name cls,
        In (input, name, cls) (triples param) ->
        resolve cls = None ->
        exists line,
          error_line cls = [line] /\ In line (cout (Init param)))
  /\ (forall input name cls branchClass method,
        In (input, name, cls) (triples param) ->
        resolve cls = Some (branchClass, method) ->
        exists id,
          In (mkBranchHandle id name branchClass, (method, input))
            (fBranchMap (Init param)))
  /\ (forall ev,
        Process (Init param) ev
        = iterate Process_step (registry_of 0 (triples param)) ev).
Proof.
  pose proof (Init_loop_spec param (mkTreeWriter Init_fClassMap [] [] [])
                eq_refl) as H.
  cbv zeta in H. destruct H as (_ & Hreg & Hout).
  cbn [fBranchMap fBranches cout length app] in Hreg, Hout.
  fold (Init param) in Hreg, Hout.
  split; [exact Hreg|].
  split; [exact Hout|].
  split.
  { intros branch method array Hin. rewrite Hreg in Hin.
    now apply registry_of_sound in Hin. }
  split.
  { intros input name cls Hin Hres.
    destruct (error_line_unresolved cls Hres) as [line Hline].
    exists line. split; [exact Hline|].
    rewrite Hout.
    apply (errors_of_complete _ input name cls); [exact Hin|].
    rewrite Hline. now left. }
  split.
  { intros input name cls branchClass method Hin Hres.
    rewrite Hreg. now apply (registry_of_complete _ 0 input name cls). }
  intros ev. unfold Process. now rewrite Hreg.
Qed.

(** ** Process run twice *)

Lemma separated_respects (registry : TBranchMap) :
  separated registry = true ->
  Forall (respects (read_unsorted registry)) registry.
Proof.
  intros Hsep. apply Forall_forall. intros item Hin.
  unfold separated in Hsep. rewrite forallb_forall in Hsep.
  specialize (Hsep item Hin). unfold respects.
  destruct (sorts (method_of item)) eqn:Hs; cbn [implb] in Hsep.
  - now rewrite Hsep.
  - assert (H : read_unsorted registry (array_of item) = true).
    { unfold read_unsorted. apply existsb_exists.
      exists item. split; [exact Hin|].
      now rewrite Hs, String.eqb_refl. }
    now rewrite H.
Qed.

Lemma invoke_sorting (method : TProcessMethod) (branch : ExRootTreeBranch)
  (array : TObjArray) :
  sorts method = true ->
  invoke method branch array
  = Done (branch ++ map (record method) (Sort array), Sort array).
Proof.
  intros Hs.
  rewrite invoke_spec by (destruct method; try discriminate Hs; reflexivity).
  unfold emitted, projection_order. rewrite Hs.
  now destruct method; try discriminate Hs.
Qed.

Lemma Process_step_agree (unsorted : ArrayHandle -> bool) (ev ev' : Event)
  (item : BranchHandle * (TProcessMethod * ArrayHandle)) :
  agree unsorted ev ev' ->
  respects unsorted item ->
  same_end unsorted (Process_step ev item) (Process_step ev' item).
Proof.
  intros (Hb & Hu & Hs) Hitem.
  unfold Process_step. unfold respects in Hitem.
  fold (method_of item) (array_of item).
  rewrite <- (Hb (branch_id (fst item))).
  destruct (sorts (method_of item)) eqn:Hsorts.
  - rewrite !invoke_sorting by assumption.
    rewrite <- (Hs (array_of item)).
    cbn [same_end]. unfold agree. cbn [branches arrays].
    split; [|split].
    + intros b. unfold set_branch.
      now destruct (Nat.eqb (branch_id (fst item)) b).
    + intros a Ha. unfold set_array.
      destruct (String.eqb (array_of item) a); [reflexivity | now apply Hu].
    + intros a. unfold set_array.
      destruct (String.eqb (array_of item) a); [reflexivity | apply Hs].
  - rewrite <- (Hu (array_of item))
      by (now destruct (unsorted (array_of item))).
    destruct (invoke (method_of item) (branches ev (branch_id (fst item)))
                (arrays ev (array_of item)))
      as [[content sorted]| |]; cbn [same_end]; try exact I.
    unfold agree. cbn [branches arrays].
    split; [|split].
    + intros b. unfold set_branch.
      now destruct (Nat.eqb (branch_id (fst item)) b).
    + intros a Ha. unfold set_array.
      destruct (String.eqb (array_of item) a); [reflexivity | now apply Hu].
    + intros a. unfold set_array.
      destruct (String.eqb (array_of item) a); [reflexivity | apply Hs].
Qed.

Lemma Process_agree (unsorted : ArrayHandle -> bool) (registry : TBranchMap) :
  Forall (respects unsorted) registry ->
  forall ev ev',
    agree unsorted ev ev' ->
    same_end unsorted (iterate Process_step registry ev)
      (iterate Process_step registry ev').
Proof.
  induction 1 as [|item registry Hitem _ IH]; intros ev ev' Hagree;
    cbn [iterate].
  - exact Hagree.
  - pose proof (Process_step_agree unsorted ev ev' item Hagree Hitem) as Hstep.
    destruct (Process_step ev item) as [ev1| |],
             (Process_step ev' item) as [ev1'| |];
      cbn [same_end] in Hstep; try contradiction; try exact I.
    now apply IH.
Qed.

Section SortedStaysSorted.

(** Sorting an array that has just been sorted leaves it as it is. *)
Hypothesis Sort_idempotent : forall l, Sort (Sort l) = Sort l.

Lemma Process_step_arrays (unsorted : ArrayHandle -> bool) (ev ev1 : Event)
  (item : BranchHandle * (TProcessMethod * ArrayHandle)) :
  respects unsorted item ->
  Process_step ev item = Done ev1 ->
  (forall a, unsorted a = true -> arrays ev1 a = arrays ev a)
  /\ (forall a, Sort (arrays ev1 a) = Sort (arrays ev a)).
Proof.
  intros Hitem Hstep.
  unfold Process_step in Hstep. unfold respects in Hitem.
  fold (method_of item) (array_of item) in Hstep.
  destruct (invoke (method_of item) (branches ev (branch_id (fst item)))
              (arrays ev (array_of item)))
    as [[content sorted]| |] eqn:Hinv; try discriminate Hstep.
  injection Hstep as <-. cbn [arrays].
  apply invoke_array in Hinv as [_ ->].
  unfold projection_order, set_array.
  split.
  - intros a Ha.
    destruct (String.eqb_spec (array_of item) a) as [<-|]; [|reflexivity].
    rewrite Ha in Hitem. cbn [negb] in Hitem. now rewrite Hitem.
  - intros a.
    destruct (String.eqb_spec (array_of item) a) as [<-|]; [|reflexivity].
    destruct (sorts (method_of item)); [apply Sort_idempotent | reflexivity].
Qed.

Lemma Process_arrays (unsorted : ArrayHandle -> bool) (registry : TBranchMap) :
  Forall (respects unsorted) registry ->
  forall ev ev1,
    iterate Process_step registry ev = Done ev1 ->
    (forall a, unsorted a = true -> arrays ev1 a = arrays ev a)
    /\ (forall a, Sort (arrays ev1 a) = Sort (arrays ev a)).
Proof.
  induction 1 as [|item registry Hitem _ IH]; intros ev ev1 Hrun;
    cbn [iterate] in Hrun.
  - injection Hrun as <-. now split.
  - destruct (Process_step ev item) as [ev'| |] eqn:Hstep;
      try discriminate Hrun.
    destruct (Process_step_arrays unsorted ev ev' item Hitem Hstep)
      as [Hu Hs].
    destruct (IH _ _ Hrun) as [Hu' Hs'].
    split.
    + intros a Ha. now rewrite Hu', Hu.
    + intros a. now rewrite Hs', Hs.
Qed.

(** C8 (as amended): when no input array is bound both to a sorting
    projector and to a non-sorting one, and sorting a sorted array changes
    nothing, a second pass over the arrays as the first pass left them, into
    branches reset to what they held before, returns and leaves every branch
    with the same records as the first pass. *)
Theorem Process_twice_same_records (tw : TreeWriter) (ev ev1 : Event) :
  separated (fBranchMap tw) = true ->
  Process tw ev = Done ev1 ->
  exists ev2,
    Process tw (rerun ev ev1) = Done ev2
    /\ forall b, branches ev2 b = branches ev1 b.
Proof.
  intros Hsep Hrun. unfold Process in *.
  pose proof (separated_respects _ Hsep) as Hresp.
  destruct (Process_arrays _ _ Hresp ev ev1 Hrun) as [Hu Hs].
  assert (Hagree : agree (read_unsorted (fBranchMap tw)) ev (rerun ev ev1)).
  { unfold agree, rerun. cbn [branches arrays].
    split; [reflexivity|].
    split.
    - intros a Ha. symmetry. now apply Hu.
    - intros a. symmetry. apply Hs. }
  pose proof (Process_agree _ _ Hresp ev (rerun ev ev1) Hagree) as Hend.
  rewrite Hrun in Hend.
  destruct (iterate Process_step (fBranchMap tw) (rerun ev ev1))
    as [ev2| |]; cbn [same_end] in Hend; try contradiction.
  exists ev2. split; [reflexivity|].
  intros b. symmetry. apply Hend.
Qed.

End SortedStaysSorted.

(** ** The comparator instance *)

Lemma insert_by_Permutation (key : Candidate -> N) (x : Candidate)
  (l : TObjArray) :
  Permutation (insert_by key x l) (x :: l).
Proof.
  induction l as [|y l IH]; cbn [insert_by].
  - apply Permutation_refl.
  - destruct (key y <=? key x)%N.
    + apply Permutation_refl.
    + eapply Permutation_trans; [apply perm_skip, IH | apply perm_swap].
Qed.

Lemma sort_by_Permutation (key : Candidate -> N) (l : TObjArray) :
  Permutation (sort_by key l) l.
Proof.
  induction l as [|x l IH]; cbn [sort_by].
  - apply Permutation_refl.
  - eapply Permutation_trans; [apply insert_by_Permutation|].
    now apply perm_skip.
Qed.

Lemma insert_by_Sorted (key : Candidate -> N) (x : Candidate)
  (l : TObjArray) :
  Sorted (key_ge key) l -> Sorted (key_ge key) (insert_by key x l).
Proof.
  induction l as [|y l IH]; intros Hl; cbn [insert_by].
  - repeat constructor.
  - destruct (key y <=? key x)%N eqn:Hle.
    + constructor; [exact Hl|]. constructor.
      unfold key_ge. now apply N.leb_le.
    + inversion Hl as [|? ? Hl' Hhd]; subst.
      constructor; [now apply IH|].
      apply N.leb_gt in Hle.
      destruct l as [|z l]; cbn [insert_by].
      * constructor. unfold key_ge. lia.
      * destruct (key z <=? key x)%N.
        -- constructor. unfold key_ge. lia.
        -- inversion Hhd; subst. now constructor.
Qed.

Lemma sort_by_Sorted (key : Candidate -> N) (l : TObjArray) :
  Sorted (key_ge key) (sort_by key l).
Proof.
  induction l as [|x l IH]; cbn [sort_by].
  - constructor.
  - now apply insert_by_Sorted.
Qed.

Lemma sort_by_fixes_Sorted (key : Candidate -> N) (l : TObjArray) :
  Sorted (key_ge key) l -> sort_by key l = l.
Proof.
  induction l as [|x l IH]; intros Hl; cbn [sort_by].
  - reflexivity.
  - inversion Hl as [|? ? Hl' Hhd]; subst.
    rewrite IH by assumption.
    destruct l as [|y l]; cbn [insert_by]; [reflexivity|].
    inversion Hhd as [|? ? Hxy]; subst.
    unfold key_ge in Hxy. apply N.leb_le in Hxy. now rewrite Hxy.
Qed.

Lemma sort_by_idempotent (key : Candidate -> N) (l : TObjArray) :
  sort_by key (sort_by key l) = sort_by key l.
Proof.
  apply sort_by_fixes_Sorted, sort_by_Sorted.
Qed.

(** * Further properties of the writer *)

(** ** How the track projector ends *)

Lemma ProcessTracks_loop_outcome (array : TObjArray)
  (branch : ExRootTreeBranch) :
  iterate ProcessTracks_body array branch
  = match first_offender array with
    | None => Done (branch ++ map (fun c => ObjTrack (track_record c)) array)
    | Some c => if passes_check c then NullDereference else AssertionFailed
    end.
Proof.
  revert branch.
  induction array as [|c array IH]; intros branch;
    cbn [iterate first_offender find map].
  - now rewrite app_nil_r.
  - unfold ProcessTracks_body at 1. fold (passes_check c).
    unfold track_record at 1. unfold has_particle at 1.
    destruct (passes_check c) eqn:Hcheck; cbn [negb andb].
    + destruct (At (GetCandidates c) 0) as [particle|]; cbn [negb].
      * rewrite IH. fold (first_offender array).
        destruct (first_offender array); [reflexivity|].
        unfold NewEntry. now rewrite <- app_assoc.
      * now rewrite Hcheck.
    + now rewrite Hcheck.
Qed.

(** X1: the track projector ends with the first track it cannot finish: in an
    assertion failure when that track fails the check, in a null
    dereference when it passes the check but has no child; it returns, with
    one record per track, exactly when there is no such track. *)
Theorem ProcessTracks_outcome (branch : ExRootTreeBranch) (array : TObjArray) :
  ProcessTracks branch array
  = match first_offender array with
    | None =>
        Done (branch ++ map (fun c => ObjTrack (track_record c)) array, array)
    | Some c => if passes_check c then NullDereference else AssertionFailed
    end.
Proof.
  unfold ProcessTracks. rewrite ProcessTracks_loop_outcome.
  destruct (first_offender array) as [c|]; [|reflexivity].
  now destruct (passes_check c).
Qed.

(** ** Process: what can stop it, and what it leaves alone *)

Lemma invoke_other_than_tracks (method : TProcessMethod)
  (branch : ExRootTreeBranch) (array : TObjArray) :
  is_track_method method = false ->
  invoke method branch array
  = Done (branch ++ emitted method array, projection_order method array).
Proof.
  intros H. apply invoke_spec.
  now destruct method.
Qed.

Lemma Process_returns_without_tracks (registry : TBranchMap) :
  uses_tracks registry = false ->
  forall ev, exists ev', iterate Process_step registry ev = Done ev'.
Proof.
  induction registry as [|item registry IH]; intros Huse ev; cbn [iterate].
  - now exists ev.
  - unfold uses_tracks in Huse. cbn [existsb] in Huse.
    apply orb_false_iff in Huse as [Hitem Hrest].
    unfold Process_step at 1. fold (method_of item).
    rewrite invoke_other_than_tracks by assumption.
    now apply IH.
Qed.

(** X2: only a branch filled by the track projector can stop the pass: a
    registry without one is processed to the end on every event. *)
Theorem Process_returns_when_no_tracks (tw : TreeWriter) (ev : Event) :
  uses_tracks (fBranchMap tw) = false ->
  exists ev', Process tw ev = Done ev'.
Proof.
  intros Huse. unfold Process.
  now apply Process_returns_without_tracks.
Qed.

Lemma Process_step_effect (ev ev1 : Event)
  (item : BranchHandle * (TProcessMethod * ArrayHandle)) :
  Process_step ev item = Done ev1 ->
  branches ev1 (id_of item)
  = branches ev (id_of item)
      ++ emitted (method_of item) (arrays ev (array_of item))
  /\ (forall b, b <> id_of item -> branches ev1 b = branches ev b)
  /\ arrays ev1 (array_of item)
     = projection_order (method_of item) (arrays ev (array_of item))
  /\ (forall a, a <> array_of item -> arrays ev1 a = arrays ev a).
Proof.
  intros Hstep. unfold Process_step in Hstep.
  fold (method_of item) (array_of item) (id_of item) in Hstep.
  destruct (invoke (method_of item) (branches ev (id_of item))
              (arrays ev (array_of item)))
    as [[content sorted]| |] eqn:Hinv; try discriminate Hstep.
  injection Hstep as <-. cbn [arrays branches].
  apply invoke_array in Hinv as [-> ->].
  unfold set_branch, set_array.
  rewrite Nat.eqb_refl, String.eqb_refl.
  repeat split.
  - intros b Hb.
    destruct (Nat.eqb_spec (id_of item) b); [congruence | reflexivity].
  - intros a Ha.
    destruct (String.eqb_spec (array_of item) a); [congruence | reflexivity].
Qed.

Lemma Process_frame (registry : TBranchMap) :
  forall ev ev',
    iterate Process_step registry ev = Done ev' ->
    (forall b, bound_branch registry b = false ->
               branches ev' b = branches ev b)
    /\ (forall a, sorted_in registry a = false -> arrays ev' a = arrays ev a)
    /\ (forall b, exists added, branches ev' b = branches ev b ++ added).
Proof.
  induction registry as [|item registry IH]; intros ev ev' Hrun;
    cbn [iterate] in Hrun.
  - injection Hrun as <-. repeat split.
    intros b. exists []. now rewrite app_nil_r.
  - destruct (Process_step ev item) as [ev1| |] eqn:Hstep;
      try discriminate Hrun.
    destruct (Process_step_effect _ _ _ Hstep) as (Hb1 & Hb2 & Ha1 & Ha2).
    destruct (IH _ _ Hrun) as (IHb & IHa & IHp).
    split; [|split].
    + intros b Hb. unfold bound_branch in Hb. cbn [existsb] in Hb.
      apply orb_false_iff in Hb as [Hne Hrest].
      rewrite IHb by exact Hrest.
      apply Hb2. intros ->. now rewrite Nat.eqb_refl in Hne.
    + intros a Ha. unfold sorted_in in Ha. cbn [existsb] in Ha.
      apply orb_false_iff in Ha as [Hne Hrest].
      rewrite IHa by exact Hrest.
      destruct (String.eqb_spec (array_of item) a) as [Heq|Hdiff].
      * subst a. rewrite Ha1. unfold projection_order.
        rewrite andb_true_r in Hne. now rewrite Hne.
      * apply Ha2. congruence.
    + intros b. destruct (IHp b) as [added Hadded].
      destruct (Nat.eq_dec b (id_of item)) as [->|Hdiff].
      * rewrite Hadded, Hb1, <- app_assoc. now eexists.
      * rewrite Hadded, (Hb2 b Hdiff). now eexists.
Qed.

(** X4: a pass that returns has left every branch outside the registry as it
    was, has left every array that no sorting projector is bound to as it
    was, and has only appended to the branches: what a branch held before is
    still there, in front. *)
Theorem Process_leaves_the_rest (tw : TreeWriter) (ev ev' : Event) :
  Process tw ev = Done ev' ->
  (forall b, bound_branch (fBranchMap tw) b = false ->
             branches ev' b = branches ev b)
  /\ (forall a, sorted_in (fBranchMap tw) a = false ->
                arrays ev' a = arrays ev a)
  /\ (forall b, exists added, branches ev' b = branches ev b ++ added).
Proof.
  intros Hrun. now apply Process_frame.
Qed.

Section SortRearranges.

Hypothesis Sort_Permutation : forall l, Permutation (Sort l) l.

Lemma Process_rearranges (registry : TBranchMap) :
  forall ev ev',
    iterate Process_step registry ev = Done ev' ->
    forall a, Permutation (arrays ev' a) (arrays ev a).
Proof.
  induction registry as [|item registry IH]; intros ev ev' Hrun a;
    cbn [iterate] in Hrun.
  - injection Hrun as <-. apply Permutation_refl.
  - destruct (Process_step ev item) as [ev1| |] eqn:Hstep;
      try discriminate Hrun.
    destruct (Process_step_effect _ _ _ Hstep) as (_ & _ & Ha1 & Ha2).
    eapply Permutation_trans; [apply (IH _ _ Hrun)|].
    destruct (String.eqb_spec (array_of item) a) as [Heq|Hdiff].
    + subst a. rewrite Ha1. unfold projection_order.
      destruct (sorts (method_of item));
        [apply Sort_Permutation | apply Permutation_refl].
    + rewrite Ha2 by congruence. apply Permutation_refl.
Qed.

(** X5: a pass never adds a candidate to an input array nor drops one: every
    array it leaves behind is a rearrangement of the array it found, provided
    the sort itself only rearranges. *)
Theorem Process_keeps_the_candidates (tw : TreeWriter) (ev ev' : Event) :
  Process tw ev = Done ev' ->
  forall a,
    Permutation (arrays ev' a) (arrays ev a)
    /\ length (arrays ev' a) = length (arrays ev a).
Proof.
  intros Hrun a.
  pose proof (Process_rearranges _ _ _ Hrun a) as Hperm.
  split; [exact Hperm | now apply Permutation_length].
Qed.

End SortRearranges.

Section BranchContents.

Hypothesis Sort_idempotent : forall l, Sort (Sort l) = Sort l.

Lemma emitted_agree (unsorted : ArrayHandle -> bool)
  (item : BranchHandle * (TProcessMethod * ArrayHandle))
  (array array0 : TObjArray) :
  respects unsorted item ->
  (unsorted (array_of item) = true -> array = array0) ->
  Sort array = Sort array0 ->
  emitted (method_of item) array = emitted (method_of item) array0.
Proof.
  intros Hitem Heq Hsort. unfold respects in Hitem.
  destruct (sorts (method_of item)) eqn:Hs.
  - unfold emitted, projection_order. rewrite Hs, Hsort.
    now destruct (method_of item).
  - rewrite Heq; [reflexivity|].
    now destruct (unsorted (array_of item)).
Qed.

Lemma Process_contents (unsorted : ArrayHandle -> bool)
  (registry : TBranchMap) :
  Forall (respects unsorted) registry ->
  NoDup (map id_of registry) ->
  forall ev0 ev ev',
    (forall a, unsorted a = true -> arrays ev a = arrays ev0 a) ->
    (forall a, Sort (arrays ev a) = Sort (arrays ev0 a)) ->
    iterate Process_step registry ev = Done ev' ->
    forall item,
      In item registry ->
      branches ev' (id_of item)
      = branches ev (id_of item)
          ++ emitted (method_of item) (arrays ev0 (array_of item)).
Proof.
  induction 1 as [|item0 registry Hitem0 Hrest IH];
    intros Hnodup ev0 ev ev' Hu Hs Hrun item Hin; cbn [iterate] in Hrun.
  - destruct Hin.
  - cbn [map] in Hnodup. inversion Hnodup as [|? ? Hfresh Hnodup']; subst.
    destruct (Process_step ev item0) as [ev1| |] eqn:Hstep;
      try discriminate Hrun.
    destruct (Process_step_effect _ _ _ Hstep) as (Hb1 & Hb2 & _ & _).
    destruct (Process_step_arrays Sort_idempotent unsorted ev ev1 item0
                Hitem0 Hstep) as [Hu1 Hs1].
    destruct Hin as [<-|Hin].
    + destruct (Process_frame _ _ _ Hrun) as (Hframe & _ & _).
      rewrite Hframe, Hb1.
      * f_equal. apply (emitted_agree unsorted); auto.
      * unfold bound_branch. apply not_true_is_false. intros Hbound.
        apply existsb_exists in Hbound as (other & Hother & Hid).
        apply Nat.eqb_eq in Hid. apply Hfresh.
        rewrite <- Hid. now apply in_map.
    + rewrite (IH Hnodup' ev0 ev1 ev'); try assumption.
      * rewrite Hb2; [reflexivity|].
        intros Hid. apply Hfresh. rewrite <- Hid. now apply in_map.
      * intros a Ha. now rewrite Hu1, Hu.
      * intros a. now rewrite Hs1, Hs.
Qed.

(** X7: when the branches of the registry are distinct, no array is bound both
    to a sorting and to a non-sorting projector, and sorting twice is
    sorting once, a pass that returns has appended to each registered branch
    exactly the records its projector makes of its input array as the pass
    found it. *)
Theorem Process_fills_each_branch (tw : TreeWriter) (ev ev' : Event) :
  separated (fBranchMap tw) = true ->
  NoDup (map id_of (fBranchMap tw)) ->
  Process tw ev = Done ev' ->
  forall item,
    In item (fBranchMap tw) ->
    branches ev' (id_of item)
    = branches ev (id_of item)
        ++ emitted (method_of item) (arrays ev (array_of item)).
Proof.
  intros Hsep Hnodup Hrun item Hin.
  apply (Process_contents (read_unsorted (fBranchMap tw)) (fBranchMap tw));
    auto.
  now apply separated_respects.
Qed.

End BranchContents.

(** ** Init: the shape of the registry *)

Lemma triples_length (param : list string) :
  length (triples param) = (length param / 3)%nat.
Proof.
  induction param as [| a | a b | a b c rest IH] using list_ind3;
    try reflexivity.
  rewrite length_div3. cbn [triples length]. now rewrite IH.
Qed.

Lemma registry_or_error (ts : list (string * string * string)) (n : nat) :
  (length (registry_of n ts) + length (errors_of ts) = length ts)%nat.
Proof.
  revert n.
  induction ts as [|[[input name] cls] ts IH]; intros n;
    cbn [registry_of errors_of flat_map snd length].
  - reflexivity.
  - rewrite length_app. fold (errors_of ts).
    unfold resolve, error_line.
    destruct (GetClass cls) as [branchClass|].
    + destruct (class_map_find Init_fClassMap branchClass); cbn [length].
      * rewrite <- (IH (S n)). lia.
      * rewrite <- (IH n). lia.
    + cbn [length]. rewrite <- (IH n). lia.
Qed.

Lemma registry_of_ids (ts : list (string * string * string)) (n : nat) :
  map id_of (registry_of n ts) = seq n (length (registry_of n ts)).
Proof.
  revert n.
  induction ts as [|[[input name] cls] ts IH]; intros n; cbn [registry_of].
  - reflexivity.
  - destruct (resolve cls) as [[branchClass method]|]; [|apply IH].
    cbn [map length seq]. now rewrite IH.
Qed.

Lemma class_map_find_made_by (cl : TClass) (method : TProcessMethod) :
  class_map_find Init_fClassMap cl = Some method ->
  cl = class_made_by method.
Proof.
  let table := eval vm_compute in Init_fClassMap in
  change Init_fClassMap with table.
  cbn [class_map_find].
  repeat match goal with
         | |- context [String.eqb ?k cl] =>
             destruct (String.eqb_spec k cl) as [Heq|_];
             [intros H; injection H as <-; now rewrite <- Heq|]
         end.
  intros H. discriminate H.
Qed.

Lemma record_class (method : TProcessMethod) (array : TObjArray)
  (o : TObject) :
  In o (emitted method array) -> class_of o = class_made_by method.
Proof.
  unfold emitted.
  destruct (singleton method).
  - destruct array as [|c rest]; [intros []|].
    intros [<-|[]]. now destruct method.
  - intros Hin. apply in_map_iff in Hin as (c & <- & _).
    now destruct method.
Qed.

Lemma Init_step_branches (param : list string) (tw : TreeWriter) (i : nat) :
  fBranches tw = map fst (fBranchMap tw) ->
  fBranches (Init_step param tw i) = map fst (fBranchMap (Init_step param tw i)).
Proof.
  intros H. unfold Init_step.
  destruct (GetClass _) as [branchClass|]; [|exact H].
  destruct (class_map_find _ _) as [method|]; [|exact H].
  cbn. rewrite map_app, H. reflexivity.
Qed.

Lemma Init_loop_branches (param : list string) (l : list nat) :
  forall tw,
    fBranches tw = map fst (fBranchMap tw) ->
    fBranches (fold_left (Init_step param) l tw)
    = map fst (fBranchMap (fold_left (Init_step param) l tw)).
Proof.
  induction l as [|i l IH]; intros tw H; cbn [fold_left].
  - exact H.
  - now apply IH, Init_step_branches.
Qed.

Lemma Init_from_triples (param : list string) :
  Init param
  = mkTreeWriter Init_fClassMap
      (registry_of 0 (triples param))
      (map fst (registry_of 0 (triples param)))
      (errors_of (triples param)).
Proof.
  pose proof (Init_loop_spec param (mkTreeWriter Init_fClassMap [] [] [])
                eq_refl) as H.
  cbv zeta in H. destruct H as (Hmap & Hreg & Hout).
  pose proof (Init_loop_branches param (seq 0 (length param / 3))
                (mkTreeWriter Init_fClassMap [] [] []) eq_refl) as Hbr.
  cbn [fBranchMap fBranches cout length app] in Hreg, Hout.
  fold (Init param) in Hmap, Hreg, Hout, Hbr.
  destruct (Init param) as [m r b o].
  cbn [fClassMap fBranchMap fBranches cout] in *.
  now subst.
Qed.

(** X8: every complete triple of the configuration ends either as one entry of
    the registry or as one line of the log, never both and never neither. *)
Theorem Init_registers_or_reports (param : list string) :
  (length (fBranchMap (Init param)) + length (cout (Init param))
   = length param / 3)%nat.
Proof.
  rewrite Init_from_triples. cbn [fBranchMap cout].
  now rewrite registry_or_error, triples_length.
Qed.

(** X10: a registered branch is bound to the projector of its own class: every
    record that projector makes, of whatever array, is an object of the
    class the branch was created for. *)
Theorem Init_binds_matching_projector (param : list string)
  (branch : BranchHandle) (method : TProcessMethod) (input : ArrayHandle) :
  In (branch, (method, input)) (fBranchMap (Init param)) ->
  branch_class branch = class_made_by method
  /\ forall array o,
       In o (emitted method array) -> class_of o = branch_class branch.
Proof.
  rewrite Init_from_triples. cbn [fBranchMap]. intros Hin.
  apply registry_of_sound in Hin as (cls & _ & Hres).
  assert (Hclass : branch_class branch = class_made_by method).
  { unfold resolve in Hres.
    destruct (GetClass cls) as [branchClass|]; [|discriminate Hres].
    destruct (class_map_find Init_fClassMap branchClass) as [m|] eqn:Hfind;
      [|discriminate Hres].
    injection Hres as <- <-. now apply class_map_find_made_by. }
  split; [exact Hclass|].
  intros array o Ho. rewrite Hclass. now apply (record_class method array).
Qed.

Lemma triples_trailer (param tail : list string) :
  (length param mod 3 = 0)%nat ->
  (length tail < 3)%nat ->
  triples (param ++ tail) = triples param.
Proof.
  intros Hparam Htail.
  induction param as [| a | a b | a b c rest IH] using list_ind3.
  - destruct tail as [|x [|y [|z tail]]]; try reflexivity.
    cbn [length] in Htail. lia.
  - discriminate Hparam.
  - discriminate Hparam.
  - cbn [app triples]. rewrite IH; [reflexivity|].
    cbn [length] in Hparam.
    replace (S (S (S (length rest)))) with (length rest + 1 * 3)%nat
      in Hparam by lia.
    now rewrite Nat.Div0.mod_add in Hparam.
Qed.

(** X11: strings that follow the last complete triple are never read: appending
    one or two of them to a configuration changes nothing. *)
Theorem Init_ignores_trailer (param tail : list string) :
  (length param mod 3 = 0)%nat ->
  (length tail < 3)%nat ->
  Init (param ++ tail) = Init param.
Proof.
  intros Hparam Htail.
  now rewrite !Init_from_triples, triples_trailer.
Qed.

(** ** The jet record *)





(** ** The singleton projectors on longer arrays *)

(** X16: a singleton projector reads the first entry only: whatever follows it in
    the array, one record is added, made of the first candidate, and the
    array is left as it was. *)
Theorem singletons_read_first_entry
  (method : TProcessMethod) (branch : ExRootTreeBranch)
  (candidate : Candidate) (rest : TObjArray) :
  singleton method = true ->
  invoke method branch (candidate :: rest)
  = Done (branch ++ [record method candidate], candidate :: rest)
  /\ emitted method (candidate :: rest) = emitted method [candidate]
  /\ ScalarHT_HT (ProcessScalarHT_entry candidate)
     = Vec.Pt (Momentum candidate)
  /\ Weight_Weight (ProcessWeight_entry candidate)
     = Vec.E (Momentum candidate).
Proof.
  intros Hs.
  split.
  - rewrite invoke_spec by (destruct method; try discriminate Hs; reflexivity).
    unfold emitted, projection_order. rewrite Hs.
    now destruct method; try discriminate Hs.
  - unfold emitted. rewrite Hs. repeat split.
Qed.

(** ** The consistency check and not-a-number *)

Lemma is_nan_Prim2SF (x : float) :
  PrimFloat.is_nan x = true -> Prim2SF x = S754_nan.
Proof.
  unfold PrimFloat.is_nan. rewrite FloatAxioms.eqb_spec.
  destruct (Prim2SF x) as [s|s| |s m e]; try reflexivity;
    unfold SFeqb, SFcompare.
  - discriminate.
  - destruct s; discriminate.
  - rewrite Z.compare_refl, Pos.compare_cont_refl.
    destruct s; discriminate.
Qed.

Lemma compare_nan_left (quant1 quant2 : float) :
  PrimFloat.is_nan quant1 = true -> compare quant1 quant2 = true.
Proof.
  intros Hnan. apply is_nan_Prim2SF in Hnan.
  unfold compare. cbv zeta.
  assert (Hdiff : Prim2SF (quant1 - quant2) = S754_nan).
  { rewrite sub_spec, Hnan. reflexivity. }
  assert (Hrel : Prim2SF ((quant1 - quant2) / quant1) = S754_nan).
  { rewrite div_spec, Hdiff. reflexivity. }
  rewrite !FloatAxioms.ltb_spec, !abs_spec, Hdiff, Hrel.
  cbn [SFabs]. unfold SFltb.
  destruct (Prim2SF 0.000000001) as [s|s| |s m e]; reflexivity.
Qed.

(** X17: the check cannot see a value that is not a number: a track whose [Zd]
    and [Dxy] are both NaN passes it whatever its parameter vector holds, so
    the assertion of the track projector does not stop such a track. *)
Theorem check_d0_z0_accepts_nan (candidate : Candidate)
  (branch : ExRootTreeBranch) :
  PrimFloat.is_nan (Zd candidate) = true ->
  PrimFloat.is_nan (Dxy candidate) = true ->
  check_d0_z0 tp (ProcessTracks_checked candidate) = true
  /\ ProcessTracks_body branch candidate <> AssertionFailed.
Proof.
  intros Hz Hd.
  assert (Hcheck : check_d0_z0 tp (ProcessTracks_checked candidate) = true).
  { unfold check_d0_z0.
    cbn [ProcessTracks_checked Track_Zd Track_Dxy Track_trkPar].
    now rewrite !compare_nan_left by assumption. }
  split; [exact Hcheck|].
  unfold ProcessTracks_body. rewrite Hcheck. cbn [negb].
  now destruct (At (GetCandidates candidate) 0).
Qed.

(** ** FillParticles: how far it reaches and how much it returns *)

Lemma first_child_short (g : Candidate) : (length (first_child g) <= 1)%nat.
Proof.
  unfold first_child. destruct (GetCandidates g); cbn [length]; lia.
Qed.

Lemma flat_map_first_child_short (l : TObjArray) :
  (length (flat_map first_child l) <= length l)%nat.
Proof.
  induction l as [|g l IH]; cbn [flat_map length]; [lia|].
  rewrite length_app. pose proof (first_child_short g). lia.
Qed.

Lemma flatten_child_size (child : Candidate) :
  (1 <= length (flatten_child child)
   /\ length (flatten_child child)
      <= Nat.max 1 (length (GetCandidates child)))%nat.
Proof.
  unfold flatten_child.
  destruct (GetCandidates child) as [|first rest]; [cbn; lia|].
  destruct (GetCandidates first) as [|p ps] eqn:Hfirst; [cbn; lia|].
  assert (Hone : length (first_child first) = 1%nat)
    by (unfold first_child; now rewrite Hfirst).
  pose proof (flat_map_first_child_short rest) as Hshort.
  cbn [flat_map]. rewrite length_app, Hone. cbn [length]. lia.
Qed.

Lemma flatten_child_reach (child p : Candidate) :
  In p (flatten_child child) ->
  p = child
  \/ In p (GetCandidates child)
  \/ In p (flat_map GetCandidates (GetCandidates child)).
Proof.
  unfold flatten_child.
  destruct (GetCandidates child) as [|first rest].
  - intros [<-|[]]. now left.
  - destruct (GetCandidates first) as [|q qs] eqn:Hfirst.
    + intros [<-|[]]. right. left. now left.
    + intros Hin. right. right.
      apply in_flat_map in Hin as (g & Hg & Hp).
      apply in_flat_map. exists g. split; [exact Hg|].
      unfold first_child in Hp.
      destruct (GetCandidates g) as [|r rs]; [destruct Hp|].
      destruct Hp as [<-|[]]. now left.
Qed.

(** X18: FillParticles never looks deeper than three edges below the candidate:
    every reference it returns is a child, a grandchild or a
    great-grandchild.  Each child contributes at least one reference and at
    most as many as it has children (one, when it has none). *)
Theorem FillParticles_reach_and_size
  (candidate : Candidate) (array : TRefArray) :
  (forall p,
     In p (FillParticles candidate array) ->
     In p (children_of candidate)
     \/ In p (grandchildren_of candidate)
     \/ In p (great_grandchildren_of candidate))
  /\ (length (GetCandidates candidate)
      <= length (FillParticles candidate array))%nat
  /\ (length (FillParticles candidate array)
      <= list_sum (map (fun child =>
                          Nat.max 1 (length (GetCandidates child)))
                     (GetCandidates candidate)))%nat.
Proof.
  unfold FillParticles. cbv zeta. rewrite FillParticles_loop_spec.
  cbn [app].
  unfold children_of, grandchildren_of, great_grandchildren_of.
  split.
  - intros p Hin.
    apply in_flat_map in Hin as (child & Hchild & Hp).
    apply flatten_child_reach in Hp as [-> | [Hp | Hp]].
    + now left.
    + right. left. apply in_flat_map. now exists child.
    + right. right.
      apply in_flat_map in Hp as (g & Hg & Hp).
      apply in_flat_map. exists g. split; [|exact Hp].
      apply in_flat_map. now exists child.
  - unfold list_sum.
    induction (GetCandidates candidate) as [|child l [IH1 IH2]];
      cbn [flat_map length map fold_right].
    + split; lia.
    + rewrite length_app.
      destruct (flatten_child_size child) as [Hlow Hhigh].
      split; lia.
Qed.

(** ** The class map *)

Lemma class_map_find_set_same (m : list (TClass * TProcessMethod))
  (key : TClass) (method : TProcessMethod) :
  class_map_find (class_map_set m key method) key = Some method.
Proof.
  induction m as [|[k v] m IH]; cbn [class_map_set class_map_find].
  - now rewrite String.eqb_refl.
  - destruct (String.eqb k key) eqn:Hk; cbn [class_map_find].
    + now rewrite String.eqb_refl.
    + now rewrite Hk.
Qed.

Lemma class_map_find_set_other (m : list (TClass * TProcessMethod))
  (key other : TClass) (method : TProcessMethod) :
  other <> key ->
  class_map_find (class_map_set m key method) other = class_map_find m other.
Proof.
  intros Hne.
  induction m as [|[k v] m IH]; cbn [class_map_set class_map_find].
  - destruct (String.eqb_spec key other); [congruence | reflexivity].
  - destruct (String.eqb_spec k key) as [->|Hk]; cbn [class_map_find].
    + destruct (String.eqb_spec key other); [congruence | reflexivity].
    + destruct (String.eqb k other); [reflexivity | exact IH].
Qed.

(** X13: registering a projector for a class makes that class resolve to it,
    replaces what was registered for the class before, and changes the
    projector of no other class; the table Init builds resolves each of the
    thirteen record classes to the projector that makes its records, and no
    other class. *)
Theorem class_map_lookup (m : list (TClass * TProcessMethod))
  (key other : TClass) (method method' : TProcessMethod) :
  class_map_find (class_map_set m key method) key = Some method
  /\ class_map_find (class_map_set (class_map_set m key method') key method)
       key = Some method
  /\ (other <> key ->
      class_map_find (class_map_set m key method) other
      = class_map_find m other)
  /\ class_map_find Init_fClassMap (class_made_by method) = Some method
  /\ (class_map_find Init_fClassMap other = Some method ->
      other = class_made_by method).
Proof.
  split; [apply class_map_find_set_same|].
  split; [apply class_map_find_set_same|].
  split; [apply class_map_find_set_other|].
  split; [now destruct method | apply class_map_find_made_by].
Qed.

(** ** Init followed by Process *)

Section InitThenProcess.

Hypothesis Sort_idempotent : forall l, Sort (Sort l) = Sort l.

(** X14: a pass over the registry Init has built, when no array is shared between
    a sorting and a non-sorting branch: each registered branch receives the
    records its projector makes of its input array, and every one of them is
    an object of the class the branch was declared with. *)
Theorem Process_after_Init (param : list string) (ev ev' : Event)
  (branch : BranchHandle) (method : TProcessMethod) (input : ArrayHandle) :
  separated (fBranchMap (Init param)) = true ->
  Process (Init param) ev = Done ev' ->
  In (branch, (method, input)) (fBranchMap (Init param)) ->
  branches ev' (branch_id branch)
  = branches ev (branch_id branch) ++ emitted method (arrays ev input)
  /\ forall o,
       In o (emitted method (arrays ev input)) ->
       class_of o = branch_class branch.
Proof.
  intros Hsep Hrun Hin.
  split.
  - apply (Process_contents Sort_idempotent
             (read_unsorted (fBranchMap (Init param)))
             (fBranchMap (Init param))
             (separated_respects _ Hsep)) with (ev0 := ev) (ev := ev)
             (item := (branch, (method, input))); auto.
    rewrite Init_from_triples. cbn [fBranchMap].
    rewrite registry_of_ids. apply seq_NoDup.
  - intros o Ho.
    rewrite Init_from_triples in Hin. cbn [fBranchMap] in Hin.
    apply registry_of_sound in Hin as (cls & _ & Hres).
    unfold resolve in Hres.
    destruct (GetClass cls) as [branchClass|]; [|discriminate Hres].
    destruct (class_map_find Init_fClassMap branchClass) as [m|] eqn:Hfind;
      [|discriminate Hres].
    injection Hres as <- <-.
    rewrite (class_map_find_made_by _ _ Hfind).
    now apply (record_class m (arrays ev input)).
Qed.

End InitThenProcess.

(** ** The arrays after a pass *)

Section ArraysAfterProcess.

Hypothesis Sort_idempotent : forall l, Sort (Sort l) = Sort l.

Lemma Process_final_arrays (registry : TBranchMap) :
  forall ev ev',
    iterate Process_step registry ev = Done ev' ->
    forall a,
      arrays ev' a
      = if sorted_in registry a then Sort (arrays ev a) else arrays ev a.
Proof.
  induction registry as [|item registry IH]; intros ev ev' Hrun a;
    cbn [iterate] in Hrun.
  - injection Hrun as <-. reflexivity.
  - destruct (Process_step ev item) as [ev1| |] eqn:Hstep;
      try discriminate Hrun.
    destruct (Process_step_effect _ _ _ Hstep) as (_ & _ & Ha1 & Ha2).
    rewrite (IH _ _ Hrun a).
    unfold sorted_in. cbn [existsb]. fold (sorted_in registry a).
    destruct (String.eqb_spec (array_of item) a) as [Heq|Hdiff].
    + subst a. rewrite Ha1, andb_true_r. unfold projection_order.
      destruct (sorts (method_of item)); cbn [orb]; [|reflexivity].
      destruct (sorted_in registry (array_of item));
        [apply Sort_idempotent | reflexivity].
    + rewrite andb_false_r. cbn [orb].
      rewrite Ha2 by congruence. reflexivity.
Qed.

(** X6: after a pass that returns, an input array bound to a photon, electron,
    muon or jet branch is left sorted (once, however many such branches
    share it), and every other array is left exactly as it was. *)
Theorem Process_sorts_bound_arrays (tw : TreeWriter) (ev ev' : Event)
  (a : ArrayHandle) :
  Process tw ev = Done ev' ->
  arrays ev' a
  = if sorted_in (fBranchMap tw) a then Sort (arrays ev a) else arrays ev a.
Proof.
  intros Hrun. now apply Process_final_arrays.
Qed.

End ArraysAfterProcess.

(** ** Init on a longer configuration *)

Lemma triples_app (param more : list string) :
  (length param mod 3 = 0)%nat ->
  triples (param ++ more) = triples param ++ triples more.
Proof.
  intros Hparam.
  induction param as [| a | a b | a b c rest IH] using list_ind3.
  - reflexivity.
  - discriminate Hparam.
  - discriminate Hparam.
  - cbn [app triples]. rewrite IH; [reflexivity|].
    cbn [length] in Hparam.
    replace (S (S (S (length rest)))) with (length rest + 1 * 3)%nat
      in Hparam by lia.
    now rewrite Nat.Div0.mod_add in Hparam.
Qed.

Lemma registry_of_app (ts more : list (string * string * string)) (n : nat) :
  registry_of n (ts ++ more)
  = registry_of n ts
      ++ registry_of (n + length (registry_of n ts)) more.
Proof.
  revert n.
  induction ts as [|[[input name] cls] ts IH]; intros n;
    cbn [app registry_of].
  - cbn [length]. now rewrite Nat.add_0_r.
  - destruct (resolve cls) as [[branchClass method]|].
    + cbn [app length]. rewrite IH. do 3 f_equal. lia.
    + apply IH.
Qed.

Lemma registry_of_length (ts : list (string * string * string)) (n m : nat) :
  length (registry_of n ts) = length (registry_of m ts).
Proof.
  pose proof (registry_or_error ts n). pose proof (registry_or_error ts m).
  lia.
Qed.

Lemma Init_keeps_entries (param longer : list string)
  (branch : BranchHandle) (method : TProcessMethod) (input : ArrayHandle) :
  (forall t, In t (triples param) -> In t (triples longer)) ->
  In (branch, (method, input)) (fBranchMap (Init param)) ->
  exists branch',
    In (branch', (method, input)) (fBranchMap (Init longer))
    /\ branch_name branch' = branch_name branch
    /\ branch_class branch' = branch_class branch.
Proof.
  intros Hsub Hin.
  rewrite Init_from_triples in *. cbn [fBranchMap] in *.
  apply registry_of_sound in Hin as (cls & Htriple & Hres).
  apply Hsub in Htriple.
  destruct (registry_of_complete _ 0 _ _ _ _ _ Htriple Hres) as [id Hid].
  eexists. split; [exact Hid|]. now split.
Qed.

(** X12: triples added at the end of a configuration take nothing away: every
    binding of a branch name and class to a projector and an input array made
    for the earlier triples, and every one made for the added triples alone,
    is made for the longer configuration, which has as many entries as the
    two together; the log is the earlier log followed by that of the added
    triples. *)
Theorem Init_keeps_earlier_triples (param more : list string)
  (branch : BranchHandle) (method : TProcessMethod) (input : ArrayHandle) :
  (length param mod 3 = 0)%nat ->
  cout (Init (param ++ more)) = cout (Init param) ++ cout (Init more)
  /\ length (fBranchMap (Init (param ++ more)))
     = (length (fBranchMap (Init param))
        + length (fBranchMap (Init more)))%nat
  /\ (In (branch, (method, input)) (fBranchMap (Init param))
      \/ In (branch, (method, input)) (fBranchMap (Init more)) ->
      exists branch',
        In (branch', (method, input)) (fBranchMap (Init (param ++ more)))
        /\ branch_name branch' = branch_name branch
        /\ branch_class branch' = branch_class branch).
Proof.
  intros Hparam.
  split; [|split].
  - rewrite !Init_from_triples. cbn [cout].
    rewrite triples_app by assumption.
    unfold errors_of. apply flat_map_app.
  - rewrite !Init_from_triples. cbn [fBranchMap].
    rewrite triples_app by assumption.
    rewrite registry_of_app, length_app.
    f_equal. apply registry_of_length.
  - intros [Hin | Hin];
      (eapply Init_keeps_entries; [|exact Hin]);
      intros t Ht; rewrite triples_app by assumption;
      apply in_or_app; [now left | now right].
Qed.

End Projectors.

(** * Instances on concrete inputs *)

Lemma FillParticles_flattens_witness :
  tower_shape jet1 = true
  /\ FillParticles jet1 [particle3]
     = [particle1; particle2; particle3; particle1]
  /\ length (FillParticles jet1 [particle3]) = grandchildren_count jet1.
Proof.
  split; [reflexivity|].
  split; [reflexivity|].
  apply (proj1 (proj2 (FillParticles_flattens jet1 [particle3]))).
  reflexivity.
Defined.

(** The track example of the specification: the originating particle sits
    at (1, 2, 3, 1000). *)
Lemma time_fields_converted_witness :
  converts_time mProcessTracks = true
  /\ projectable eta0 phi0 tp0 mProcessTracks [good_track] = true
  /\ exists out,
       invoke eta0 phi0 rapidity0 sort_by_id tp0 mProcessTracks [] [good_track]
       = Done (out, [good_track])
       /\ map exposed_times out = [[1000.0e-3 / 2.99792458e8; 0.0]].
Proof.
  split; [reflexivity|].
  split; [reflexivity|].
  exact (proj1
           (time_fields_converted eta0 phi0 rapidity0 sort_by_id tp0
              mProcessTracks [] [good_track])
           eq_refl eq_refl).
Defined.

(** C2, as stated, fails on the far-detector hit record: its time field is
    the internal time itself. *)
Lemma HectorHit_time_not_converted :
  exists e,
    ProcessHectorHit [] [particle1] = ([ObjHectorHit e], [particle1])
    /\ HectorHit_T e = 1000.0
    /\ HectorHit_T e <> time_out (Vec.T (Position particle1)).
Proof.
  eexists. split; [reflexivity|].
  split; [reflexivity|].
  intros H.
  apply (f_equal (fun t => t =? 1000.0)) in H.
  vm_compute in H. discriminate H.
Qed.

Lemma degenerate_axis_sentinel_witness :
  on_beam_axis (mkTLorentzVector 0.0 0.0 5.0 5.0) = true
  /\ sentinel_eta eta0 (mkTLorentzVector 0.0 0.0 5.0 5.0) = 999.9
  /\ on_beam_axis (mkTLorentzVector 0.0 0.0 (-5.0) 5.0) = true
  /\ sentinel_rapidity rapidity0 (mkTLorentzVector 0.0 0.0 (-5.0) 5.0)
     = -999.9
  /\ on_beam_axis (mkTLorentzVector 3.0 4.0 0.0 5.0) = false
  /\ sentinel_eta eta0 (mkTLorentzVector 3.0 4.0 0.0 5.0)
     = eta0 (mkTLorentzVector 3.0 4.0 0.0 5.0)
  /\ exists out,
       invoke (PseudoRapidity eta0) phi0 rapidity0 sort_by_id tp0
         mProcessParticles [] [axis_candidate; met_candidate]
       = Done (out, [axis_candidate; met_candidate])
       /\ map exposed_etas out = [[999.9; 999.9]; [0.0; 0.0]].
Proof.
  split; [reflexivity|].
  split.
  { apply (proj1 (proj2
             (degenerate_axis_sentinel eta0 phi0 rapidity0 sort_by_id tp0
                particle1 particle1
                (ProcessTracks_checked eta0 phi0 particle1)
                (mkTLorentzVector 0.0 0.0 5.0 5.0)
                mProcessParticles [] [])));
      reflexivity. }
  split; [reflexivity|].
  split.
  { apply (proj1 (proj2 (proj2
             (degenerate_axis_sentinel eta0 phi0 rapidity0 sort_by_id tp0
                particle1 particle1
                (ProcessTracks_checked eta0 phi0 particle1)
                (mkTLorentzVector 0.0 0.0 (-5.0) 5.0)
                mProcessParticles [] []))));
      reflexivity. }
  split; [reflexivity|].
  split.
  { apply (proj1 (proj2 (proj2 (proj2
             (degenerate_axis_sentinel eta0 phi0 rapidity0 sort_by_id tp0
                particle1 particle1
                (ProcessTracks_checked eta0 phi0 particle1)
                (mkTLorentzVector 3.0 4.0 0.0 5.0)
                mProcessParticles [] [])))));
      reflexivity. }
  exact (proj2 (proj2 (proj2 (proj2 (proj2
           (degenerate_axis_sentinel (PseudoRapidity eta0) phi0 rapidity0
              sort_by_id tp0
              particle1 particle1
              (ProcessTracks_checked eta0 phi0 particle1)
              origin
              mProcessParticles [] [axis_candidate; met_candidate])))))
           eq_refl).
Defined.

(** C3, as stated, fails on the missing-energy record: for a momentum along
    the beam axis its [Eta] is what [Eta] returns on the negated momentum,
    not the sentinel. *)
Lemma MissingET_Eta_has_no_sentinel :
  on_beam_axis (Vec.neg (Momentum axis_candidate)) = true
  /\ sentinel_eta (PseudoRapidity eta0) (Vec.neg (Momentum axis_candidate))
     = -999.9
  /\ exists e,
       ProcessMissingET (PseudoRapidity eta0) phi0 [] [axis_candidate]
       = ([ObjMissingET e], [axis_candidate])
       /\ MissingET_Eta e = -10e10
       /\ MissingET_Eta e
          <> sentinel_eta (PseudoRapidity eta0)
               (Vec.neg (Momentum axis_candidate)).
Proof.
  split; [reflexivity|].
  split; [reflexivity|].
  eexists. split; [reflexivity|].
  split; [reflexivity|].
  intros H.
  apply (f_equal (fun x => x =? -10e10)) in H.
  vm_compute in H. discriminate H.
Qed.




Lemma ProcessMissingET_first_entry_witness :
  Momentum met_candidate = mkTLorentzVector 3.0 4.0 0.0 5.0
  /\ MissingET_MET (ProcessMissingET_entry eta0 phi0 met_candidate) = 5.0
  /\ ProcessMissingET eta0 phi0 [] [met_candidate; particle1]
     = ([ObjMissingET
           (mkMissingET
              (eta0 (mkTLorentzVector (-3.0) (-4.0) (-0.0) (-5.0)))
              (phi0 (mkTLorentzVector (-3.0) (-4.0) (-0.0) (-5.0)))
              5.0)],
        [met_candidate; particle1]).
Proof.
  split; [reflexivity|].
  split.
  { exact (f_equal MissingET_MET
             (proj1 (proj2 (ProcessMissingET_first_entry eta0 phi0 []
                              met_candidate []) eq_refl))). }
  exact (proj1 (ProcessMissingET_first_entry eta0 phi0 [] met_candidate
                  [particle1])).
Defined.

Lemma Init_skips_unresolved_triples_witness :
  resolve GetClass0 "Bogus"%string = None
  /\ resolve GetClass0 "Candidate"%string = None
  /\ fBranchMap (Init GetClass0 param0)
     = [(mkBranchHandle 0 "Track" "Track", (mProcessTracks, "tracks"));
        (mkBranchHandle 1 "Photon" "Photon", (mProcessPhotons, "photons"))]%string
  /\ cout (Init GetClass0 param0)
     = ["** ERROR: cannot find class 'Bogus'";
        "** ERROR: cannot create branch for class 'Candidate'"]%string
  /\ exists line,
       error_line GetClass0 "Bogus"%string = [line]
       /\ In line (cout (Init GetClass0 param0)).
Proof.
  split; [reflexivity|].
  split; [reflexivity|].
  split; [reflexivity|].
  split; [reflexivity|].
  apply (proj1 (proj2 (proj2 (proj2
           (Init_skips_unresolved_triples eta0 phi0 rapidity0 sort_by_id tp0
              GetClass0 param0))))
           "stuff"%string "Stuff"%string "Bogus"%string).
  - cbn. right. now left.
  - reflexivity.
Defined.

Lemma Process_twice_same_records_witness :
  let tw := Init GetClass0 param_apart in
  let first := Process eta0 phi0 rapidity0 sort_by_id tp0 tw event0 in
  separated (fBranchMap tw) = true
  /\ first = Done (returned event0 first)
  /\ exists ev2,
       Process eta0 phi0 rapidity0 sort_by_id tp0 tw
         (rerun event0 (returned event0 first))
       = Done ev2
       /\ forall b, branches ev2 b = branches (returned event0 first) b.
Proof.
  cbv zeta.
  split; [reflexivity|].
  assert (Hfirst :
    Process eta0 phi0 rapidity0 sort_by_id tp0 (Init GetClass0 param_apart)
      event0
    = Done (returned event0
              (Process eta0 phi0 rapidity0 sort_by_id tp0
                 (Init GetClass0 param_apart) event0)))
    by (vm_compute; reflexivity).
  split; [exact Hfirst|].
  exact (Process_twice_same_records eta0 phi0 rapidity0 sort_by_id tp0
           (sort_by_idempotent GetUniqueID)
           (Init GetClass0 param_apart) event0 _ eq_refl Hfirst).
Defined.

(** C8, as stated, fails when a branch that reads an array as it is runs
    before a branch that sorts the same array: the first pass projects the
    towers in the given order, the second in sorted order. *)
Lemma shared_array_changes_second_pass :
  let tw := Init GetClass0 param_shared in
  let first := Process eta0 phi0 rapidity0 sort_by_id tp0 tw event0 in
  let second :=
    Process eta0 phi0 rapidity0 sort_by_id tp0 tw
      (rerun event0 (returned event0 first)) in
  first = Done (returned event0 first)
  /\ second = Done (returned event0 second)
  /\ map record_id (branches (returned event0 first) 0%nat) = [1; 2]%N
  /\ map record_id (branches (returned event0 second) 0%nat) = [2; 1]%N
  /\ branches (returned event0 second) 0%nat
     <> branches (returned event0 first) 0%nat.
Proof.
  cbv zeta.
  split; [vm_compute; reflexivity|].
  split; [vm_compute; reflexivity|].
  split; [vm_compute; reflexivity|].
  split; [vm_compute; reflexivity|].
  intros H. apply (f_equal (map record_id)) in H.
  vm_compute in H. discriminate H.
Qed.

Lemma ProcessTracks_assertion_witness :
  forallb (consistent_track tp0) [good_track] = true
  /\ forallb has_particle [good_track] = true
  /\ ProcessTracks eta0 phi0 tp0 [] [good_track]
     = Done ([ObjTrack (track_record eta0 phi0 good_track)], [good_track]).
Proof.
  split; [reflexivity|].
  split; [reflexivity|].
  apply (proj2 (proj2
           (ProcessTracks_assertion eta0 phi0 tp0
              ltac:(cbn; lia) ltac:(cbn; lia) [] [good_track])));
    reflexivity.
Defined.

(** C9, as stated, fails on a track that satisfies the relation but has no
    originating particle: the projector reads through a null pointer. *)
Lemma orphan_track_stops_projection :
  forallb (consistent_track tp0) [orphan_track] = true
  /\ ProcessTracks eta0 phi0 tp0 [] [orphan_track] = NullDereference
  /\ ~ (exists out sorted,
          ProcessTracks eta0 phi0 tp0 [] [orphan_track] = Done (out, sorted)).
Proof.
  assert (H : ProcessTracks eta0 phi0 tp0 [] [orphan_track] = NullDereference)
    by reflexivity.
  split; [reflexivity|].
  split; [exact H|].
  intros (out & sorted & Hcall). rewrite H in Hcall. discriminate Hcall.
Qed.

Lemma singletons_skip_empty_array_witness :
  singleton mProcessWeight = true
  /\ invoke eta0 phi0 rapidity0 sort_by_id tp0 mProcessWeight [] []
     = Done ([], []).
Proof.
  split; [reflexivity|].
  apply (proj2 (proj2 (proj2
           (singletons_skip_empty_array eta0 phi0 rapidity0 sort_by_id tp0
              []))) mProcessWeight).
  reflexivity.
Defined.

(** * Instances of the further properties *)

Lemma Process_returns_when_no_tracks_witness :
  uses_tracks (fBranchMap (Init GetClass0 param_shared)) = false
  /\ exists ev',
       Process eta0 phi0 rapidity0 sort_by_id tp0
         (Init GetClass0 param_shared) event0
       = Done ev'.
Proof.
  split; [reflexivity|].
  exact (Process_returns_when_no_tracks eta0 phi0 rapidity0 sort_by_id tp0
           (Init GetClass0 param_shared) event0 eq_refl).
Defined.

Lemma Process_leaves_the_rest_witness :
  let tw := Init GetClass0 param0 in
  let first := Process eta0 phi0 rapidity0 sort_by_id tp0 tw event1 in
  first = Done (returned event1 first)
  /\ bound_branch (fBranchMap tw) 7 = false
  /\ branches (returned event1 first) 7 = branches event1 7
  /\ sorted_in (fBranchMap tw) "tracks"%string = false
  /\ arrays (returned event1 first) "tracks"%string
     = arrays event1 "tracks"%string.
Proof.
  cbv zeta.
  assert (Hfirst :
    Process eta0 phi0 rapidity0 sort_by_id tp0 (Init GetClass0 param0) event1
    = Done (returned event1
              (Process eta0 phi0 rapidity0 sort_by_id tp0
                 (Init GetClass0 param0) event1)))
    by (vm_compute; reflexivity).
  destruct (Process_leaves_the_rest eta0 phi0 rapidity0 sort_by_id tp0
              (Init GetClass0 param0) event1 _ Hfirst)
    as (Hbranches & Harrays & _).
  split; [exact Hfirst|].
  split; [reflexivity|].
  split; [exact (Hbranches 7%nat eq_refl)|].
  split; [reflexivity|].
  exact (Harrays "tracks"%string eq_refl).
Defined.

Lemma Process_keeps_the_candidates_witness :
  let tw := Init GetClass0 param_shared in
  let first := Process eta0 phi0 rapidity0 sort_by_id tp0 tw event0 in
  first = Done (returned event0 first)
  /\ forall a,
       Permutation (arrays (returned event0 first) a) (arrays event0 a)
       /\ length (arrays (returned event0 first) a)
          = length (arrays event0 a).
Proof.
  cbv zeta.
  assert (Hfirst :
    Process eta0 phi0 rapidity0 sort_by_id tp0 (Init GetClass0 param_shared)
      event0
    = Done (returned event0
              (Process eta0 phi0 rapidity0 sort_by_id tp0
                 (Init GetClass0 param_shared) event0)))
    by (vm_compute; reflexivity).
  split; [exact Hfirst|].
  exact (Process_keeps_the_candidates eta0 phi0 rapidity0 sort_by_id tp0
           (sort_by_Permutation GetUniqueID)
           (Init GetClass0 param_shared) event0 _ Hfirst).
Defined.

Lemma Process_fills_each_branch_witness :
  let tw := Init GetClass0 param0 in
  let first := Process eta0 phi0 rapidity0 sort_by_id tp0 tw event1 in
  separated (fBranchMap tw) = true
  /\ first = Done (returned event1 first)
  /\ branches (returned event1 first) 1
     = emitted eta0 phi0 rapidity0 sort_by_id mProcessPhotons
         [particle1; particle2].
Proof.
  cbv zeta.
  assert (Hfirst :
    Process eta0 phi0 rapidity0 sort_by_id tp0 (Init GetClass0 param0) event1
    = Done (returned event1
              (Process eta0 phi0 rapidity0 sort_by_id tp0
                 (Init GetClass0 param0) event1)))
    by (vm_compute; reflexivity).
  assert (Hnodup : NoDup (map id_of (fBranchMap (Init GetClass0 param0)))).
  { repeat constructor; cbn; intuition discriminate. }
  split; [reflexivity|].
  split; [exact Hfirst|].
  exact (Process_fills_each_branch eta0 phi0 rapidity0 sort_by_id tp0
           (sort_by_idempotent GetUniqueID)
           (Init GetClass0 param0) event1 _ eq_refl Hnodup Hfirst
           (mkBranchHandle 1 "Photon"%string "Photon"%string,
            (mProcessPhotons, "photons"%string))
           (or_intror (or_introl eq_refl))).
Defined.

Lemma Init_binds_matching_projector_witness :
  In (mkBranchHandle 1 "Photon"%string "Photon"%string,
      (mProcessPhotons, "photons"%string))
    (fBranchMap (Init GetClass0 param0))
  /\ forall o,
       In o (emitted eta0 phi0 rapidity0 sort_by_id mProcessPhotons
               [particle1; particle2]) ->
       class_of o = "Photon"%string.
Proof.
  assert (Hin :
    In (mkBranchHandle 1 "Photon"%string "Photon"%string,
        (mProcessPhotons, "photons"%string))
      (fBranchMap (Init GetClass0 param0)))
    by (right; left; reflexivity).
  split; [exact Hin|].
  exact (proj2 (Init_binds_matching_projector eta0 phi0 rapidity0 sort_by_id
                  GetClass0 param0 _ _ _ Hin)
           [particle1; particle2]).
Defined.

Lemma Init_ignores_trailer_witness :
  Init GetClass0
    (["tracks"; "Track"; "Track"; "stuff"; "Stuff"; "Bogus"]%string
       ++ ["left"; "over"]%string)
  = Init GetClass0
      ["tracks"; "Track"; "Track"; "stuff"; "Stuff"; "Bogus"]%string.
Proof.
  apply (Init_ignores_trailer GetClass0
           ["tracks"; "Track"; "Track"; "stuff"; "Stuff"; "Bogus"]%string
           ["left"; "over"]%string).
  - reflexivity.
  - cbn. lia.
Defined.

Lemma singletons_read_first_entry_witness :
  singleton mProcessScalarHT = true
  /\ invoke eta0 phi0 rapidity0 sort_by_id tp0 mProcessScalarHT []
       [met_candidate; particle1; particle2]
     = Done ([ObjScalarHT (mkScalarHT 5.0)],
             [met_candidate; particle1; particle2]).
Proof.
  split; [reflexivity|].
  exact (proj1 (singletons_read_first_entry eta0 phi0 rapidity0 sort_by_id
                  tp0 mProcessScalarHT [] met_candidate
                  [particle1; particle2] eq_refl)).
Defined.

Lemma check_d0_z0_accepts_nan_witness :
  PrimFloat.is_nan (Zd nan_track) = true
  /\ PrimFloat.is_nan (Dxy nan_track) = true
  /\ check_d0_z0 tp0 (ProcessTracks_checked eta0 phi0 nan_track) = true.
Proof.
  split; [reflexivity|].
  split; [reflexivity|].
  exact (proj1 (check_d0_z0_accepts_nan eta0 phi0 tp0 nan_track []
                  eq_refl eq_refl)).
Defined.

Lemma FillParticles_reach_and_size_witness :
  In particle1 (FillParticles jet1 [])
  /\ (In particle1 (children_of jet1)
      \/ In particle1 (grandchildren_of jet1)
      \/ In particle1 (great_grandchildren_of jet1)).
Proof.
  assert (Hin : In particle1 (FillParticles jet1 [])) by (left; reflexivity).
  split; [exact Hin|].
  exact (proj1 (FillParticles_reach_and_size jet1 []) particle1 Hin).
Defined.

Lemma class_map_lookup_witness :
  "Jet"%string <> "Rho"%string
  /\ class_map_find
       (class_map_set Init_fClassMap "Rho"%string mProcessJets) "Jet"%string
     = class_map_find Init_fClassMap "Jet"%string
  /\ class_map_find
       (class_map_set Init_fClassMap "Rho"%string mProcessJets) "Rho"%string
     = Some mProcessJets.
Proof.
  assert (Hne : "Jet"%string <> "Rho"%string) by discriminate.
  split; [exact Hne|].
  split.
  - exact (proj1 (proj2 (proj2
             (class_map_lookup Init_fClassMap "Rho"%string "Jet"%string
                mProcessJets mProcessJets))) Hne).
  - exact (proj1 (class_map_lookup Init_fClassMap "Rho"%string "Jet"%string
                    mProcessJets mProcessJets)).
Defined.

Lemma Process_after_Init_witness :
  let tw := Init GetClass0 param0 in
  let first := Process eta0 phi0 rapidity0 sort_by_id tp0 tw event1 in
  separated (fBranchMap tw) = true
  /\ first = Done (returned event1 first)
  /\ branches (returned event1 first) 0
     = emitted eta0 phi0 rapidity0 sort_by_id mProcessTracks
         [good_track; good_track]
  /\ forall o,
       In o (emitted eta0 phi0 rapidity0 sort_by_id mProcessTracks
               [good_track; good_track]) ->
       class_of o = "Track"%string.
Proof.
  cbv zeta.
  assert (Hfirst :
    Process eta0 phi0 rapidity0 sort_by_id tp0 (Init GetClass0 param0) event1
    = Done (returned event1
              (Process eta0 phi0 rapidity0 sort_by_id tp0
                 (Init GetClass0 param0) event1)))
    by (vm_compute; reflexivity).
  split; [reflexivity|].
  split; [exact Hfirst|].
  exact (Process_after_Init eta0 phi0 rapidity0 sort_by_id tp0 GetClass0
           (sort_by_idempotent GetUniqueID)
           param0 event1 _
           (mkBranchHandle 0 "Track"%string "Track"%string)
           mProcessTracks "tracks"%string
           eq_refl Hfirst (or_introl eq_refl)).
Defined.

Lemma Process_sorts_bound_arrays_witness :
  let tw := Init GetClass0 param_shared in
  let first := Process eta0 phi0 rapidity0 sort_by_id tp0 tw event0 in
  first = Done (returned event0 first)
  /\ arrays (returned event0 first) "towers"%string = [particle2; particle1]
  /\ arrays (returned event0 first) "tracks"%string = [particle1; particle2].
Proof.
  cbv zeta.
  assert (Hfirst :
    Process eta0 phi0 rapidity0 sort_by_id tp0 (Init GetClass0 param_shared)
      event0
    = Done (returned event0
              (Process eta0 phi0 rapidity0 sort_by_id tp0
                 (Init GetClass0 param_shared) event0)))
    by (vm_compute; reflexivity).
  split; [exact Hfirst|].
  split.
  - exact (Process_sorts_bound_arrays eta0 phi0 rapidity0 sort_by_id tp0
             (sort_by_idempotent GetUniqueID)
             (Init GetClass0 param_shared) event0 _ "towers"%string Hfirst).
  - exact (Process_sorts_bound_arrays eta0 phi0 rapidity0 sort_by_id tp0
             (sort_by_idempotent GetUniqueID)
             (Init GetClass0 param_shared) event0 _ "tracks"%string Hfirst).
Defined.

Lemma Init_keeps_earlier_triples_witness :
  In (mkBranchHandle 0 "Track"%string "Track"%string,
      (mProcessTracks, "tracks"%string))
    (fBranchMap
       (Init GetClass0
          ["stuff"; "Stuff"; "Bogus"; "tracks"; "Track"; "Track"]%string))
  /\ exists branch',
       In (branch', (mProcessTracks, "tracks"%string))
         (fBranchMap
            (Init GetClass0
               (["stuff"; "Stuff"; "Bogus"; "tracks"; "Track"; "Track"]%string
                  ++ ["photons"; "Photon"; "Photon"]%string)))
       /\ branch_name branch' = "Track"%string
       /\ branch_class branch' = "Track"%string.
Proof.
  assert (Hin :
    In (mkBranchHandle 0 "Track"%string "Track"%string,
        (mProcessTracks, "tracks"%string))
      (fBranchMap
         (Init GetClass0
            ["stuff"; "Stuff"; "Bogus"; "tracks"; "Track"; "Track"]%string)))
    by (left; reflexivity).
  split; [exact Hin|].
  exact (proj2 (proj2
           (Init_keeps_earlier_triples GetClass0
              ["stuff"; "Stuff"; "Bogus"; "tracks"; "Track"; "Track"]%string
              ["photons"; "Photon"; "Photon"]%string
              _ _ _ eq_refl))
           (or_introl Hin)).
Defined.
